(** * archiscribe: the line cache of package [lib] and the entry point [main]

    A shallow embedding of [lib.ProgressReader], [lib.CacheLines],
    [lib.cacheWatcher], [lib.InitCache] and [main.main], with the properties
    the specification states about them.

    The remote collaborators ([IDCache.Random], [IsFraktur], [FetchLines])
    are not part of these sources.  Their answers are given to the embedded
    functions as a script: the list of answers the collaborators give, in the
    order the code asks for them. *)

From Stdlib Require Import ZArith Lia Ascii String List Bool DecimalString DecimalPos.
From stdpp Require Import base option list sorting strings gmap fin_maps.

Local Open Scope string_scope.
Local Open Scope Z_scope.

(** ** Machine integers *)

Module Int64.

Definition min_int : Z := - 2 ^ 63.
Definition max_int : Z := 2 ^ 63 - 1.

(** Signed 64-bit wrap-around, as Go's [+] on [int64] has it. *)
Definition wrap (z : Z) : Z := (z + 2 ^ 63) mod 2 ^ 64 - 2 ^ 63.

Definition add (a b : Z) : Z := wrap (a + b).

Definition in_range (z : Z) : Prop := min_int <= z <= max_int.

End Int64.

(** ** [io.Reader] and [ProgressReader] *)

(** The error value of a call: [nil], [io.EOF], or another error. *)
Inductive error : Type :=
| EOF
| Err (msg : string).

(** [io.Reader]: a call [Read(p)] sees only [len(p)]; it answers the count
    [n], the error, and the reader's next state.  The bytes stored in [p]
    play no part in [ProgressReader]. *)
Class Reader (R : Type) := reader_read : R -> nat -> Z * option error * R.

Record ProgressReader (R : Type) := mkProgressReader {
  proxiedReader : R;
  BytesRead : Z
}.
Arguments mkProgressReader {R} _ _.
Arguments proxiedReader {R} _.
Arguments BytesRead {R} _.

Definition NewProgressReader {R} (proxied : R) : ProgressReader R :=
  mkProgressReader proxied 0.

(** What one call adds to [BytesRead]. *)
Definition credited (n : Z) (len_p : nat) : Z :=
  if 0 <? n then n else Z.of_nat len_p.

(** [func (r *ProgressReader) Read(p []byte) (n int, err error)];
    [len_p] is [len(p)]. *)
Definition Read {R} `{Reader R} (r : ProgressReader R) (len_p : nat)
  : Z * option error * ProgressReader R :=
  let '(n, err, proxied') := reader_read (proxiedReader r) len_p in
  let bytes :=
    if 0 <? n then Int64.add (BytesRead r) n
    else Int64.add (BytesRead r) (Z.of_nat len_p) in
  (n, err, mkProgressReader proxied' bytes).

(** A run of calls with the given buffer lengths; each step records what the
    call returned and the reader after it. *)
Fixpoint reads {R} `{Reader R} (r : ProgressReader R) (bufs : list nat)
  : list (Z * option error * ProgressReader R) :=
  match bufs with
  | [] => []
  | len_p :: bufs' =>
      let '(n, err, r') := Read r len_p in
      (n, err, r') :: reads r' bufs'
  end.

(** The reader after the run. *)
Fixpoint after_reads {R} `{Reader R} (r : ProgressReader R) (bufs : list nat)
  : ProgressReader R :=
  match bufs with
  | [] => r
  | len_p :: bufs' => after_reads (Read r len_p).2 bufs'
  end.

(** What the run adds to [BytesRead] in all, were there no wrap-around. *)
Fixpoint credits {R} `{Reader R} (s : R) (bufs : list nat) : Z :=
  match bufs with
  | [] => 0
  | len_p :: bufs' =>
      let '(n, err, s') := reader_read s len_p in
      credited n len_p + credits s' bufs'
  end.

(** The answers of the wrapped reader alone over the same run. *)
Fixpoint proxied_reads {R} `{Reader R} (s : R) (bufs : list nat)
  : list (Z * option error) :=
  match bufs with
  | [] => []
  | len_p :: bufs' =>
      let '(n, err, s') := reader_read s len_p in
      (n, err) :: proxied_reads s' bufs'
  end.

(** A reader over [remaining] bytes held in memory, as [bytes.Reader] and
    [strings.Reader] behave: at the end it answers [0, io.EOF]; before it,
    [min(len(p), remaining)] bytes and no error. *)
Record MemReader := mkMemReader { remaining : Z }.

#[global] Instance MemReader_Reader : Reader MemReader := fun s len_p =>
  if remaining s <=? 0 then (0, Some EOF, s)
  else
    let n := Z.min (Z.of_nat len_p) (remaining s) in
    (n, None, mkMemReader (remaining s - n)).

(** Reading to exhaustion with one buffer of [len_p] bytes, as the loop of
    [io.CopyBuffer] drives a reader: call until an error comes back.  The
    result is the reader after the terminal call. *)
Fixpoint read_all {R} `{Reader R} (fuel : nat) (r : ProgressReader R)
  (len_p : nat) : option (ProgressReader R) :=
  match fuel with
  | O => None
  | S fuel' =>
      let '(n, err, r') := Read r len_p in
      match err with
      | Some _ => Some r'
      | None => read_all fuel' r' len_p
      end
  end.

(** ** The Go library functions the code calls

    [strconv.Itoa], [strconv.Atoi], [path.Ext], [path.Clean], [path.Join]
    and [filepath.Abs] (on a Unix system), written after their
    documentation. *)

Module Go.

Definition slash : ascii := "/"%char.
Definition dot : ascii := "."%char.

(** [strconv.Itoa] *)
Definition Itoa (i : Z) : string :=
  DecimalString.NilZero.string_of_int (Z.to_int i).

Definition digit_of (c : ascii) : option Z :=
  let n := Z.of_N (N_of_ascii c) in
  if (48 <=? n) && (n <=? 57) then Some (n - 48) else None.

Fixpoint digits (s : string) (acc : Z) : option Z :=
  match s with
  | EmptyString => Some acc
  | String c s' =>
      match digit_of c with
      | Some d => digits s' (acc * 10 + d)
      | None => None
      end
  end.

(** [strconv.Atoi]: an optional sign and at least one decimal digit; a
    syntax error gives 0, a value out of range the nearest [int]. *)
Definition Atoi (s : string) : Z * option error :=
  let '(neg, body) :=
    match s with
    | String "-" s' => (true, s')
    | String "+" s' => (false, s')
    | _ => (false, s)
    end in
  match body with
  | EmptyString => (0, Some (Err "invalid syntax"))
  | _ =>
      match digits body 0 with
      | None => (0, Some (Err "invalid syntax"))
      | Some u =>
          let v := if neg then - u else u in
          if v <? Int64.min_int then
            (Int64.min_int, Some (Err "value out of range"))
          else if Int64.max_int <? v then
            (Int64.max_int, Some (Err "value out of range"))
          else (v, None)
      end
  end.

(** The text of [s] cut at every slash. *)
Fixpoint split_slash (s : string) : list string :=
  match s with
  | EmptyString => [EmptyString]
  | String c s' =>
      if Ascii.eqb c slash then EmptyString :: split_slash s'
      else
        match split_slash s' with
        | [] => [String c EmptyString]
        | w :: ws => String c w :: ws
        end
  end.

Fixpoint join_slash (ws : list string) : string :=
  match ws with
  | [] => EmptyString
  | [w] => w
  | w :: ws' => w ++ "/" ++ join_slash ws'
  end.

(** One element of a path met by [path.Clean]; [out] is the stack of
    elements kept so far, the last one first. *)
Definition clean_step (rooted : bool) (out : list string) (elem : string)
  : list string :=
  if String.eqb elem "" then out
  else if String.eqb elem "." then out
  else if String.eqb elem ".." then
    match out with
    | top :: rest =>
        if String.eqb top ".." then elem :: out else rest
    | [] => if rooted then out else [elem]
    end
  else elem :: out.

(** [path.Clean] *)
Definition Clean (p : string) : string :=
  match p with
  | EmptyString => "."
  | String c _ =>
      let rooted := Ascii.eqb c slash in
      let out := fold_left (clean_step rooted) (split_slash p) [] in
      let body := join_slash (rev out) in
      if rooted then String slash body
      else if String.eqb body "" then "." else body
  end.

(** [path.Join] of two elements; [filepath.Join] is the same on Unix. *)
Definition Join (a b : string) : string :=
  if String.eqb a "" then
    if String.eqb b "" then "" else Clean b
  else if String.eqb b "" then Clean a
  else Clean (a ++ "/" ++ b).

(** The suffix of [s] from its last dot on, empty when there is none. *)
Fixpoint from_last_dot (s : string) : string :=
  match s with
  | EmptyString => EmptyString
  | String c s' =>
      match from_last_dot s' with
      | EmptyString => if Ascii.eqb c dot then s else EmptyString
      | e => e
      end
  end.

(** What follows the last slash of [p] (all of [p] without a slash). *)
Definition last_elem (p : string) : string :=
  match rev (split_slash p) with
  | [] => EmptyString
  | last :: _ => last
  end.

(** [path.Ext]: the suffix from the last dot of the last element. *)
Definition Ext (p : string) : string := from_last_dot (last_elem p).

(** [path.Dir]: what precedes the last slash, cleaned. *)
Definition Dir (p : string) : string :=
  match rev (split_slash p) with
  | [] => "."
  | _ :: front =>
      match front with
      | [] => "."
      | _ => Clean (join_slash (rev front) ++ "/")
      end
  end.

(** [filepath.Abs] in the working directory [cwd]. *)
Definition Abs (cwd p : string) : string :=
  match p with
  | String "/" _ => Clean p
  | _ => Join cwd p
  end.

End Go.


(** ** The data of package [lib] *)

(** [type OCRLine struct] *)
Record OCRLine := mkOCRLine {
  ImageURL : string;
  PreviousImageURL : string;
  NextImageURL : string;
  Transcription : string
}.

(** The entry [IDCache.Random] hands out; [CacheLines] reads its
    [Identifier]. *)
Record IdentifierEntry := mkEntry {
  Identifier : string;
  Year : Z
}.

(** Modelled from the spec: the Identifier Index (the type of [IDCache],
    its [Random], [CacheIdentifiers] and [LoadIdentifierCache]) is not in
    these sources.  The index maps a year to the entries indexed for it;
    [Build] partitions the catalog's results by year; [Random] answers one
    of the entries indexed for the year, the one the random draw [rnd]
    selects, and nothing ([NoCandidatesError]) when there is none. *)
Module IdentifierIndex.

(** Modelled from the spec: one result of the catalog is put into the
    partition of its year. *)
Definition add (e : IdentifierEntry) (idx : gmap Z (list IdentifierEntry))
  : gmap Z (list IdentifierEntry) :=
  <[Year e := e :: idx !!! Year e]> idx.

(** Modelled from the spec: [Build] "partitions results by year". *)
Definition Build (catalog : list IdentifierEntry)
  : gmap Z (list IdentifierEntry) :=
  foldr add ∅ catalog.

(** Modelled from the spec: [Random(year)] "returns a uniformly random entry
    among those indexed for [year]", or [NoCandidatesError]. *)
Definition Random (idx : gmap Z (list IdentifierEntry)) (year : Z)
  (rnd : nat) : option IdentifierEntry :=
  match idx !! year with
  | None => None
  | Some bucket => bucket !! (rnd mod length bucket)%nat
  end.

End IdentifierIndex.

(** ** The file system *)

(** What a file holds: plain text, the JSON that [json.Marshal] makes of a
    line sequence, kept as the sequence it encodes, or the snapshot of an
    identifier index, kept as the index. *)
Inductive FileData : Type :=
| Text (s : string)
| LinesJSON (lines : list OCRLine)
| IndexJSON (idx : gmap Z (list IdentifierEntry)).

Inductive Node : Type :=
| Dir
| File (data : FileData).

(** [os.FileInfo], as far as the code looks at it. *)
Record FileInfo := mkFileInfo {
  Name : string;
  IsDir : bool
}.

Definition node_is_dir (n : Node) : bool :=
  match n with Dir => true | File _ => false end.

(** A file system maps the clean path of every file and directory to its
    node.  The directories ["/"] and ["."] always exist. *)
Definition is_dir (fs : gmap string Node) (p : string) : bool :=
  String.eqb p "/" || String.eqb p "." ||
  match fs !! p with Some Dir => true | _ => false end.

(** The chain of directories above [p], the nearest first. *)
Fixpoint ancestors (fuel : nat) (p : string) : list string :=
  match fuel with
  | O => []
  | S fuel' =>
      let d := Go.Dir p in
      if String.eqb d p then [] else d :: ancestors fuel' d
  end.

Definition above (p : string) : list string :=
  ancestors (String.length p) p.

Definition is_file (fs : gmap string Node) (p : string) : bool :=
  match fs !! p with Some (File _) => true | _ => false end.

Inductive StatResult : Type :=
| StatOk (info : FileInfo)
| StatNotExist
| StatNotDir.

(** [os.Stat] *)
Definition Stat (fs : gmap string Node) (p : string) : StatResult :=
  let p := Go.Clean p in
  if String.eqb p "/" || String.eqb p "." then
    StatOk (mkFileInfo (Go.last_elem p) true)
  else
  match fs !! p with
  | Some n => StatOk (mkFileInfo (Go.last_elem p) (node_is_dir n))
  | None =>
      if existsb (is_file fs) (above p) then StatNotDir else StatNotExist
  end.

Definition insert_sorted (f : FileInfo) : list FileInfo -> list FileInfo :=
  fix go (l : list FileInfo) : list FileInfo :=
    match l with
    | [] => [f]
    | g :: l' =>
        if String.leb (Name f) (Name g) then f :: l else g :: go l'
    end.

Definition sort_by_name (l : list FileInfo) : list FileInfo :=
  fold_right insert_sorted [] l.

(** The entries of directory [d], unsorted. *)
Definition children (fs : gmap string Node) (d : string) : list FileInfo :=
  omap (fun kn : string * Node =>
          if String.eqb (Go.Dir kn.1) d && negb (String.eqb kn.1 d)
          then Some (mkFileInfo (Go.last_elem kn.1) (node_is_dir kn.2))
          else None)
       (map_to_list fs).

(** [ioutil.ReadDir]: the entries of a directory sorted by file name;
    [None] is an error. *)
Definition ReadDir (fs : gmap string Node) (p : string)
  : option (list FileInfo) :=
  let d := Go.Clean p in
  if is_dir fs d then Some (sort_by_name (children fs d)) else None.

(** [ioutil.WriteFile]: creates or truncates the file; fails when [p] is a
    directory or its parent is not one.  The error is the second
    component. *)
Definition WriteFile (fs : gmap string Node) (p : string) (data : FileData)
  : gmap string Node * option error :=
  let p := Go.Clean p in
  if is_dir fs p then (fs, Some (Err "is a directory"))
  else if is_dir fs (Go.Dir p) then (<[p := File data]> fs, None)
  else (fs, Some (Err "no such file or directory")).

(** [os.MkdirAll]: creates [p] and every missing directory above it; fails
    when a file is in the way.  The other ways in which the call can fail
    (permissions, a read-only or full file system) have no counterpart in
    this file system; what is proved of a call that succeeds says so. *)
Definition MkdirAll (fs : gmap string Node) (p : string)
  : gmap string Node * option error :=
  let p := Go.Clean p in
  let chain := p :: above p in
  if existsb (is_file fs) chain then (fs, Some (Err "not a directory"))
  else
    (fold_right (fun d m => if is_dir m d then m else <[d := Dir]> m)
                fs chain, None).

(** ** The world [lib] runs in *)

(** The calls made on a [pb.ProgressBar]. *)
Inductive BarOp : Type :=
| BarNew (total : Z)
| BarSetWidth (width : Z)
| BarStart
| BarSetCurrent (value : Z)
| BarFinish.

(** The file system, the lines written by the [log] package, the calls made
    on progress bars and the lines printed on standard output (each list the
    oldest first). *)
Record World := mkWorld {
  fs : gmap string Node;
  log : list string;
  bar : list BarOp;
  stdout : list string
}.

(** [log.Printf] *)
Definition logf (msg : string) (w : World) : World :=
  mkWorld (fs w) (log w ++ [msg])%list (bar w) (stdout w).

Definition bar_ops (ops : list BarOp) (w : World) : World :=
  mkWorld (fs w) (log w) (bar w ++ ops)%list (stdout w).

Definition set_fs (fs' : gmap string Node) (w : World) : World :=
  mkWorld fs' (log w) (bar w) (stdout w).

(** [fmt.Println] *)
Definition println (line : string) (w : World) : World :=
  mkWorld (fs w) (log w) (bar w) (stdout w ++ [line])%list.

(** ** The collaborators' answers *)

(** What arrives on the two channels of [FetchLines]: a progress value
    (carried as [int64(prog.Progress * 100)], the only use the code makes of
    it), a progress event with an error, or the lines. *)
Inductive Event : Type :=
| Progress (percent : Z)
| ProgressError (err : string)
| LinesReady (lines : list OCRLine).

(** The answer of [FetchLines(ident)]: an error, or the channels with what
    will arrive on them, in the order [select] receives it. *)
Inductive Fetch : Type :=
| FetchError (err : string)
| Fetching (events : list Event).

(** One round of the loop of [CacheLines]: the entry [IDCache.Random(year)]
    returns, the boolean [IsFraktur] returns for it (the code drops the error
    that comes with it), and the answer of [FetchLines] (asked for only when
    [isFrak] holds). *)
Record Attempt := mkAttempt {
  entry : IdentifierEntry;
  isFrak : bool;
  fetched : Fetch
}.

(** How a call ends: it returns; it waits for ever on channels on which
    nothing arrives any more; or the script holds no answer for the next
    question, and the call is still running. *)
Inductive Outcome (A : Type) : Type :=
| Returned (a : A)
| Blocked
| ScriptEnded.
Arguments Returned {A} _.
Arguments Blocked {A}.
Arguments ScriptEnded {A}.

(** ** [CacheLines] *)

Inductive Received : Type :=
| GotLines (lines : list OCRLine)
| GotError (err : string)
| Starved.

(** The inner [for { select { ... } }] of [CacheLines], up to the event
    that leaves it. *)
Fixpoint await (printProgress : bool) (events : list Event) (w : World)
  : Received * World :=
  match events with
  | [] => (Starved, w)
  | Progress v :: events' =>
      await printProgress events'
            (if printProgress then bar_ops [BarSetCurrent v] w else w)
  | ProgressError err :: _ => (GotError err, w)
  | LinesReady lines :: _ => (GotLines lines, w)
  end.

(** [func CacheLines(cachePath string, year int, printProgress bool) string]
    over a script of attempts.  The result is the outcome, the part of the
    script not yet used, and the world. *)
Fixpoint CacheLines (cachePath : string) (year : Z) (printProgress : bool)
  (script : list Attempt) (w : World)
  : Outcome string * list Attempt * World :=
  let yearPath := Go.Join cachePath (Go.Itoa year) in
  match script with
  | [] => (ScriptEnded, [], w)
  | a :: script' =>
      let ident := Identifier (entry a) in
      if negb (isFrak a) then
        CacheLines cachePath year printProgress script' w
      else
        match fetched a with
        | FetchError err =>
            CacheLines cachePath year printProgress script'
              (logf ("Error while getting OCR for " ++ ident ++ ": " ++ err) w)
        | Fetching events =>
            let w :=
              logf ("Caching lines for " ++ Go.Itoa year ++ " from " ++ ident)
                   w in
            let w :=
              if printProgress
              then bar_ops [BarNew 100; BarSetWidth 80; BarStart] w
              else w in
            match await printProgress events w with
            | (GotError err, w) =>
                CacheLines cachePath year printProgress script'
                  (logf ("Error while getting lines for " ++ ident ++ ": "
                         ++ err) w)
            | (GotLines lines, w) =>
                let filePath := Go.Join yearPath (ident ++ ".json") in
                let lineJSON := LinesJSON lines in
                let w := set_fs (WriteFile (fs w) filePath lineJSON).1 w in
                let w := if printProgress then bar_ops [BarFinish] w else w in
                (Returned filePath, script', w)
            | (Starved, w) => (Blocked, script', w)
            end
        end
  end.

(** ** [cacheWatcher] *)

(** [for len(cacheFiles[year]) < 3 { ... }]: every round appends one path,
    so three rounds of fuel are never used up (see [fill_up_exit]). *)
Fixpoint fill_up (fuel : nat) (basePath : string) (year : Z)
  (cacheFiles : gmap Z (list string)) (script : list Attempt) (w : World)
  : Outcome (gmap Z (list string)) * list Attempt * World :=
  match fuel with
  | O => (Returned cacheFiles, script, w)
  | S fuel' =>
      if (length (cacheFiles !!! year) <? 3)%nat then
        match CacheLines basePath year true script w with
        | (Returned filePath, script', w') =>
            fill_up fuel' basePath year
              (<[year := (cacheFiles !!! year ++ [filePath])%list]> cacheFiles)
              script' w'
        | (Blocked, script', w') => (Blocked, script', w')
        | (ScriptEnded, script', w') => (ScriptEnded, script', w')
        end
      else (Returned cacheFiles, script, w)
  end.

(** The body of [for _, f := range dirContent]. *)
Definition scan_entry (year : Z) (yearPath : string)
  (cacheFiles : gmap Z (list string)) (f : FileInfo)
  : gmap Z (list string) :=
  if IsDir f || negb (String.eqb (Go.Ext (Name f)) ".json") then cacheFiles
  else <[year := (cacheFiles !!! year ++ [Go.Join yearPath (Name f)])%list]>
         cacheFiles.

(** [for _, yearDir := range yearDirs] *)
Fixpoint watch_dirs (basePath : string) (yearDirs : list FileInfo)
  (cacheFiles : gmap Z (list string)) (script : list Attempt) (w : World)
  : Outcome (gmap Z (list string)) * list Attempt * World :=
  match yearDirs with
  | [] => (Returned cacheFiles, script, w)
  | yearDir :: yearDirs' =>
      if negb (IsDir yearDir) then
        watch_dirs basePath yearDirs' cacheFiles script w
      else
        let year := (Go.Atoi (Name yearDir)).1 in
        let yearPath := Go.Join basePath (Name yearDir) in
        let dirContent := default [] (ReadDir (fs w) yearPath) in
        let cacheFiles :=
          <[year := replicate (length dirContent) ""]> cacheFiles in
        let cacheFiles :=
          fold_left (scan_entry year yearPath) dirContent cacheFiles in
        match fill_up 3 basePath year cacheFiles script w with
        | (Returned cacheFiles, script', w') =>
            watch_dirs basePath yearDirs' cacheFiles script' w'
        | other => other
        end
  end.

(** [func cacheWatcher(basePath string) (map[int]chan string, error)]: the
    map of channels it returns is the empty one it starts with ([None] is
    [nil]); no channel is ever made. *)
Definition cacheWatcher (basePath : string) (script : list Attempt)
  (w : World)
  : Outcome (option (gmap Z (list string)) * option error)
    * list Attempt * World :=
  let cacheChannels : gmap Z (list string) := ∅ in
  let cacheFiles : gmap Z (list string) := ∅ in
  match ReadDir (fs w) basePath with
  | None => (Returned (None, Some (Err "open: no such directory")), script, w)
  | Some yearDirs =>
      match watch_dirs basePath yearDirs cacheFiles script w with
      | (Returned _, script', w') =>
          (Returned (Some cacheChannels, None), script', w')
      | (Blocked, script', w') => (Blocked, script', w')
      | (ScriptEnded, script', w') => (ScriptEnded, script', w')
      end
  end.

(** The cached files of a year directory: its entries that are no
    directories and end in [.json]. *)
Definition cached_files (fs : gmap string Node) (yearPath : string)
  : list string :=
  map Name
      (List.filter
         (fun f => negb (IsDir f) && String.eqb (Go.Ext (Name f)) ".json")
              (default [] (ReadDir fs yearPath))).

(** ** [InitCache] *)

(** The package's global variables [LineCache] (kept as the directory it is
    made over) and [IDCache]; [None] is [nil]. *)
Record Globals := mkGlobals {
  LineCache : option string;
  IDCache : option (gmap Z (list IdentifierEntry))
}.

(** How the process goes on after a call: normally, or with a panic. *)
Inductive Exit (A : Type) : Type :=
| Done (a : A)
| Panic (msg : string).
Arguments Done {A} _.
Arguments Panic {A} _.

(** Modelled from the spec: [CacheIdentifiers] is not in these sources.  It
    queries the remote catalog once ([catalog] is the answer, [None] an
    error), partitions the results by year and persists the snapshot. *)
Definition CacheIdentifiers (idCacheFile : string)
  (catalog : option (list IdentifierEntry)) (w : World)
  : (gmap Z (list IdentifierEntry) + error) * World :=
  match catalog with
  | None => (inr (Err "catalog query failed"), w)
  | Some entries =>
      let idx := IdentifierIndex.Build entries in
      (inl idx, set_fs (WriteFile (fs w) idCacheFile (IndexJSON idx)).1 w)
  end.

(** Modelled from the spec: [LoadIdentifierCache] is not in these sources.
    It reads back the snapshot that was persisted; [None] is the spec's
    [CorruptSnapshotError], fatal at startup. *)
Definition LoadIdentifierCache (idCacheFile : string) (w : World)
  : option (gmap Z (list IdentifierEntry)) :=
  match fs w !! Go.Clean idCacheFile with
  | Some (File (IndexJSON idx)) => Some idx
  | _ => None
  end.

(** The first statements of [InitCache]: the cache directory is chosen and
    set up.  [env] is the process environment, [cwd] the working
    directory. *)
Definition setup_cache_dir (env : gmap string string) (cwd : string)
  (w : World) : Exit string * World :=
  let cacheDir :=
    match env !! "ARCHISCRIBE_CACHE" with
    | Some v => v
    | None => "./cache"
    end in
  let cacheDir := Go.Abs cwd cacheDir in
  match Stat (fs w) cacheDir with
  | StatNotExist =>
      (Done cacheDir, set_fs (MkdirAll (fs w) cacheDir).1 w)
  | StatOk dirStat =>
      if negb (IsDir dirStat) then
        let msg := "Cache directory '" ++ cacheDir ++ "' is not a directory!" in
        (Panic msg, logf msg w)
      else (Done cacheDir, w)
  | StatNotDir =>
      (* [dirStat] is nil: [dirStat.IsDir()] panics *)
      (Panic "runtime error: invalid memory address or nil pointer dereference",
       w)
  end.

(** [func InitCache()]; [catalog] is the answer of the remote catalog. *)
Definition InitCache (env : gmap string string) (cwd : string)
  (catalog : option (list IdentifierEntry)) (w : World) (g : Globals)
  : Exit Globals * World :=
  match setup_cache_dir env cwd w with
  | (Panic msg, w) => (Panic msg, w)
  | (Done cacheDir, w) =>
      let g := mkGlobals (Some cacheDir) (IDCache g) in
      let idCacheFile := Go.Join cacheDir "identifiers.json" in
      match Stat (fs w) idCacheFile with
      | StatOk _ =>
          match LoadIdentifierCache idCacheFile w with
          | Some idx => (Done (mkGlobals (LineCache g) (Some idx)), w)
          | None => (Panic "corrupt snapshot", w)
          end
      | _ =>
          let w := println "Caching identifiers..." w in
          match CacheIdentifiers idCacheFile catalog w with
          | (inr (Err msg), w) => (Panic msg, w)
          | (inr EOF, w) => (Panic "EOF", w)
          | (inl cache, w) => (Done (mkGlobals (LineCache g) (Some cache)), w)
          end
      end
  end.

(** ** [main] *)

(** The value of a registered flag. *)
Inductive FlagValue : Type :=
| BoolValue (b : bool)
| StringValue (s : string).

(** [flag.Bool(name, value, usage)] on the flag set [formal]: the flag is
    registered with its default.  The pointer it returns is kept as the
    flag's name, and read with [bool_at]. *)
Definition flag_Bool (name : string) (value : bool)
  (formal : gmap string FlagValue) : gmap string FlagValue :=
  <[name := BoolValue value]> formal.

(** [flag.String(name, value, usage)] *)
Definition flag_String (name : string) (value : string)
  (formal : gmap string FlagValue) : gmap string FlagValue :=
  <[name := StringValue value]> formal.

(** [*p] for the pointer [flag.Bool] returned for [name]. *)
Definition bool_at (formal : gmap string FlagValue) (name : string) : bool :=
  match formal !! name with
  | Some (BoolValue b) => b
  | _ => false
  end.

(** [*p] for the pointer [flag.String] returned for [name]. *)
Definition string_at (formal : gmap string FlagValue) (name : string)
  : string :=
  match formal !! name with
  | Some (StringValue s) => s
  | _ => ""
  end.

(** [strconv.ParseBool] *)
Definition ParseBool (s : string) : option bool :=
  if existsb (String.eqb s) ["1"; "t"; "T"; "TRUE"; "true"; "True"]
  then Some true
  else if existsb (String.eqb s) ["0"; "f"; "F"; "FALSE"; "false"; "False"]
  then Some false
  else None.

(** [name=value] cut at its first [=]. *)
Fixpoint cut_eq (s : string) : string * option string :=
  match s with
  | EmptyString => (EmptyString, None)
  | String c s' =>
      if Ascii.eqb c "="%char then (EmptyString, Some s')
      else let '(name, value) := cut_eq s' in (String c name, value)
  end.

(** [flag.Parse] on the command line [args].  [inl] is the flag set after
    parsing, [inr] the code the process exits with (2 on an error, 0 on
    [-h] and [-help]). *)
Fixpoint Parse (args : list string) (formal : gmap string FlagValue)
  : gmap string FlagValue + Z :=
  match args with
  | [] => inl formal
  | s :: args' =>
      match s with
      | String "-" (String c1 rest1) =>
          let body :=
            if Ascii.eqb c1 "-"%char then rest1 else String c1 rest1 in
          if Ascii.eqb c1 "-"%char && String.eqb rest1 "" then inl formal
          else
            match body with
            | EmptyString => inr 2
            | String c _ =>
                if Ascii.eqb c "-"%char || Ascii.eqb c "="%char then inr 2
                else
                  let '(name, value) := cut_eq body in
                  match formal !! name with
                  | None =>
                      if String.eqb name "help" || String.eqb name "h"
                      then inr 0
                      else inr 2
                  | Some (BoolValue _) =>
                      match value with
                      | None => Parse args' (<[name := BoolValue true]> formal)
                      | Some v =>
                          match ParseBool v with
                          | Some b =>
                              Parse args' (<[name := BoolValue b]> formal)
                          | None => inr 2
                          end
                      end
                  | Some (StringValue _) =>
                      match value with
                      | Some v =>
                          Parse args' (<[name := StringValue v]> formal)
                      | None =>
                          match args' with
                          | v :: args'' =>
                              Parse args'' (<[name := StringValue v]> formal)
                          | [] => inr 2
                          end
                      end
                  end
            end
      | _ => inl formal
      end
  end.

(** How [main] ends: with a panic, with [os.Exit], or inside
    [web.Serve(port, repoPath)], which is not part of these sources. *)
Inductive MainEnd : Type :=
| Panicked (msg : string)
| Exited (code : Z)
| Serve (port : Z) (path : string).

(** [func main()]; [args] is the command line after the program's name. *)
Definition main (args : list string) (env : gmap string string)
  (cwd : string) (catalog : option (list IdentifierEntry))
  (w : World) (g : Globals) : MainEnd * World * Globals :=
  let CommandLine : gmap string FlagValue := ∅ in
  let isDebug := "debug" in
  let CommandLine := flag_Bool isDebug false CommandLine in
  let repoPath := "repoPath" in
  let CommandLine := flag_String repoPath "" CommandLine in
  if String.eqb (string_at CommandLine repoPath) "" then
    (Panicked "repoPath must be set!", w, g)
  else
    match Parse args CommandLine with
    | inr code => (Exited code, w, g)
    | inl CommandLine =>
        match InitCache env cwd catalog w g with
        | (Panic msg, w) => (Panicked msg, w, g)
        | (Done g, w) =>
            if bool_at CommandLine isDebug
            then (Serve 8083 (string_at CommandLine repoPath), w, g)
            else (Serve 8080 (string_at CommandLine repoPath), w, g)
        end
    end.

(** ** Vocabulary of the properties *)

(** [ioutil.ReadFile] *)
Definition ReadFile (fs : gmap string Node) (p : string) : option FileData :=
  match fs !! Go.Clean p with
  | Some (File data) => Some data
  | _ => None
  end.

(** The event that ends the wait on the two channels. *)
Fixpoint received (events : list Event) : Received :=
  match events with
  | [] => Starved
  | Progress _ :: events' => received events'
  | ProgressError err :: _ => GotError err
  | LinesReady lines :: _ => GotLines lines
  end.

(** The identifier is not in the target script. *)
Definition mismatch (a : Attempt) : bool := negb (isFrak a).

(** The fetch fails: at once, or on the progress channel. *)
Definition fetch_fails (a : Attempt) : bool :=
  isFrak a &&
  match fetched a with
  | FetchError _ => true
  | Fetching events =>
      match received events with GotError _ => true | _ => false end
  end.

(** A failed attempt. *)
Definition failed (a : Attempt) : bool := mismatch a || fetch_fails a.

(** The attempt delivers [lines]. *)
Definition delivers (a : Attempt) (lines : list OCRLine) : Prop :=
  isFrak a = true /\
  exists events, fetched a = Fetching events /\ received events = GotLines lines.

(** The number of attempts a call has made when [rest] is what it left of
    [script]. *)
Definition attempts_made (script rest : list Attempt) : nat :=
  (length script - length rest)%nat.

(** A retry budget of [N]: on samples whose fetches fail one after the
    other, no call of [CacheLines] makes more than [N] attempts.
    Classification mismatches, which the budget does not count, do not
    occur in these scripts. *)
Definition retry_budget (N : nat) : Prop :=
  forall cachePath year printProgress script w,
    forallb fetch_fails script = true ->
    (attempts_made script
       (CacheLines cachePath year printProgress script w).1.2 <= N)%nat.


(** ** Sample data *)

Definition sample_lines : list OCRLine :=
  [mkOCRLine "https://example.org/l1.png" "" "https://example.org/l2.png" ""].

Definition good_attempt (ident : string) : Attempt :=
  mkAttempt (mkEntry ident 1850) true
            (Fetching [Progress 40; LinesReady sample_lines]).

Definition mismatch_attempt : Attempt :=
  mkAttempt (mkEntry "antiqua" 1850) false (Fetching []).

Definition fetch_error_attempt : Attempt :=
  mkAttempt (mkEntry "gone" 1850) true (FetchError "404").

Definition progress_error_attempt : Attempt :=
  mkAttempt (mkEntry "broken" 1850) true
            (Fetching [Progress 10; ProgressError "timeout"]).

Definition sample_catalog : list IdentifierEntry :=
  [mkEntry "a1850" 1850; mkEntry "b1860" 1860; mkEntry "c1850" 1850;
   mkEntry "d1860" 1860; mkEntry "e1850" 1850].

(** A cache root with an empty directory for 1850. *)
Definition world_1850 : World :=
  mkWorld (list_to_map [("/cache", Dir); ("/cache/1850", Dir)]) [] [] [].

(** A cache root without a directory for 1850. *)
Definition world_no_year_dir : World :=
  mkWorld (list_to_map [("/cache", Dir)]) [] [] [].

(** A cache root whose directory for 1850 holds two cached files. *)
Definition world_two_cached : World :=
  mkWorld (list_to_map [("/cache", Dir); ("/cache/1850", Dir);
                        ("/cache/1850/a.json", File (LinesJSON sample_lines));
                        ("/cache/1850/b.json", File (LinesJSON sample_lines))])
          [] [] [].




(** ** Further vocabulary: what a run of reads delivered *)

(** The bytes the wrapped reader delivered over the run: the sum of the
    positive counts. *)
Fixpoint delivered {R} `{Reader R} (s : R) (bufs : list nat) : Z :=
  match bufs with
  | [] => 0
  | len_p :: bufs' =>
      let '(n, err, s') := reader_read s len_p in
      (if 0 <? n then n else 0) + delivered s' bufs'
  end.

(** The buffer lengths of the calls that delivered nothing. *)
Fixpoint phantom {R} `{Reader R} (s : R) (bufs : list nat) : Z :=
  match bufs with
  | [] => 0
  | len_p :: bufs' =>
      let '(n, err, s') := reader_read s len_p in
      (if 0 <? n then 0 else Z.of_nat len_p) + phantom s' bufs'
  end.

(** A fetch on whose channels nothing more arrives. *)
Definition silent_attempt : Attempt :=
  mkAttempt (mkEntry "stalled" 1850) true (Fetching [Progress 10; Progress 20]).

(** ** Further vocabulary: rounds of the fill loop *)

(** A round: the attempts that fail, and then the attempt that delivers. *)
Definition play (rounds : list (list Attempt * Attempt)) : list Attempt :=
  flat_map (fun round => (round.1 ++ [round.2])%list) rounds.

(** The path [CacheLines] makes for the identifier of attempt [a]. *)
Definition fill_path (cachePath : string) (year : Z) (a : Attempt) : string :=
  Go.Join (Go.Join cachePath (Go.Itoa year)) (Identifier (entry a) ++ ".json").

(** A round as [CacheLines] wants it. *)
Definition good_round (round : list Attempt * Attempt) : Prop :=
  forallb failed round.1 = true /\ exists lines, delivers round.2 lines.

(** The entries of a directory listing that count as cached files. *)
Definition json_entries (dirContent : list FileInfo) : list FileInfo :=
  List.filter (fun f => negb (IsDir f) && String.eqb (Go.Ext (Name f)) ".json")
              dirContent.

(** A cache root that holds a file beside the directory of a year. *)
Definition world_with_snapshot : World :=
  mkWorld (list_to_map [("/cache", Dir); ("/cache/1850", Dir);
                        ("/cache/identifiers.json", File (Text "{}"))])
          [] [] [].

(** What [strconv.Atoi] makes of the digits [body] after the sign. *)
Definition atoi_value (neg : bool) (body : string) : Z * option error :=
  match Go.digits body 0 with
  | None => (0, Some (Err "invalid syntax"))
  | Some u =>
      let v := if neg then - u else u in
      if v <? Int64.min_int then
        (Int64.min_int, Some (Err "value out of range"))
      else if Int64.max_int <? v then
        (Int64.max_int, Some (Err "value out of range"))
      else (v, None)
  end.

(** ** [createReadme]

    The statistics [createReadme] gathers and the values it hands to the
    tables and to the template.  The rendering of the tables
    ([tablewriter]) and of the template ([text/template]) is not part of
    the embedding. *)

(** What [createReadme] reads from one metadata file through
    [simplejson]: the size of [meta.Get("lines").MustMap()] and the
    [MustString()] of the fields [year], [identifier], [title] and [date]
    (a field that is missing or no string reads as the empty string). *)
Record Meta := mkMeta {
  meta_lines : nat;
  meta_year : string;
  meta_identifier : string;
  meta_title : string;
  meta_date : string
}.

(** What [os.Open] and [simplejson.NewFromReader] make of a path. *)
Inductive MetaFile : Type :=
| OpenError (err : string)
| ParseError (err : string)
| MetaParsed (meta : Meta).

Definition insert_path (f : string * MetaFile)
  : list (string * MetaFile) -> list (string * MetaFile) :=
  fix go (l : list (string * MetaFile)) : list (string * MetaFile) :=
    match l with
    | [] => [f]
    | g :: l' => if String.leb f.1 g.1 then f :: l else g :: go l'
    end.

(** [sort.Strings(metaFiles)], each path with what is read from it. *)
Definition sort_paths (l : list (string * MetaFile))
  : list (string * MetaFile) :=
  fold_right insert_path [] l.

(** The variables of the loop over the metadata files. *)
Record ReadmeStats := mkReadmeStats {
  numLinesTotal : Z;
  yearCount : gmap Z Z;
  decadeCount : gmap Z Z;
  metaRows : list (list string)
}.

(** [decade := (year / 10) * 10]; Go's division truncates toward zero. *)
Definition decade_of (year : Z) : Z := Z.quot year 10 * 10.

(** [m[k] += n] on a [map[int]int]. *)
Definition count_add (k n : Z) (m : gmap Z Z) : gmap Z Z :=
  <[k := Int64.add (default 0 (m !! k)) n]> m.

(** The body of [for _, metaPath := range metaFiles]. *)
Definition readme_step (st : ReadmeStats * World) (file : string * MetaFile)
  : ReadmeStats * World :=
  let '(stats, w) := st in
  let metaPath := file.1 in
  match file.2 with
  | OpenError err =>
      (stats, logf ("Could not read meta file " ++ metaPath ++ ": " ++ err) w)
  | ParseError err =>
      (stats, logf ("Could not parse meta file " ++ metaPath ++ ": " ++ err) w)
  | MetaParsed meta =>
      let numLines := Z.of_nat (meta_lines meta) in
      let year := (Go.Atoi (meta_year meta)).1 in
      let decade := decade_of year in
      let ident := meta_identifier meta in
      let archiveLink :=
        "[" ++ ident ++ "](http://archive.org/details/" ++ ident ++ ")" in
      let manifestLink :=
        "[Manifest](https://iiif.archivelab.org/iiif/" ++ ident
        ++ "/manifest.json)" in
      let miradorLink :=
        "[Mirador](ttps://iiif.archivelab.org/iiif/" ++ ident ++ ")" in
      (mkReadmeStats
         (Int64.add (numLinesTotal stats) numLines)
         (count_add year numLines (yearCount stats))
         (count_add decade numLines (decadeCount stats))
         (metaRows stats
          ++ [[meta_title meta; meta_date meta; archiveLink;
               (manifestLink ++ "/" ++ miradorLink)%string]])%list,
       w)
  end.

(** The loop of [createReadme] over the sorted metadata files. *)
Definition readme_stats (metaFiles : list (string * MetaFile)) (w : World)
  : ReadmeStats * World :=
  fold_left readme_step (sort_paths metaFiles)
            (mkReadmeStats 0 ∅ ∅ [], w).

(** The keys of a count in ascending order ([sort.Ints]). *)
Definition sorted_keys (m : gmap Z Z) : list Z :=
  merge_sort Z.le (elements (dom m)).

(** The rows appended to a table of counts. *)
Definition count_rows (m : gmap Z Z) : list (list string) :=
  map (fun k => [Go.Itoa k; Go.Itoa (default 0 (m !! k))]) (sorted_keys m).

(** What [createReadme] hands to the template: the three numbers, and for
    each table the rows it was given. *)
Record ReadmeData := mkReadmeData {
  numLines : string;
  numWorks : string;
  numYears : string;
  decadeTable : list (list string);
  yearTable : list (list string);
  worksTable : list (list string)
}.

(** [func createReadme(repoPath string) string], up to the rendering;
    [metaFiles] is what [filepath.Glob] found, each path with what is read
    from it. *)
Definition createReadme (metaFiles : list (string * MetaFile)) (w : World)
  : ReadmeData * World :=
  let '(stats, w) := readme_stats metaFiles w in
  let years := sorted_keys (yearCount stats) in
  (mkReadmeData
     (Go.Itoa (numLinesTotal stats))
     (Go.Itoa (Z.of_nat (length metaFiles)))
     (Go.Itoa (Z.of_nat (length years)))
     (count_rows (decadeCount stats))
     (count_rows (yearCount stats))
     (metaRows stats),
   w).

(** The metadata that were read, in the order of the loop. *)
Definition parsed (metaFiles : list (string * MetaFile)) : list Meta :=
  omap (fun file => match file.2 with MetaParsed m => Some m | _ => None end)
       metaFiles.

(** The year [createReadme] files a work under. *)
Definition year_of (m : Meta) : Z := (Go.Atoi (meta_year m)).1.

(** The lines of the works that [select] picks. *)
Definition lines_where (select : Meta -> bool) (metas : list Meta) : Z :=
  foldr (fun m acc => (if select m then Z.of_nat (meta_lines m) else 0) + acc)
        0 metas.

Definition sample_meta_files : list (string * MetaFile) :=
  [("r/transcriptions/1873/b.json",
    MetaParsed (mkMeta 12 "1873" "bsb11" "Reise" "1873"));
   ("r/transcriptions/1850/a.json",
    MetaParsed (mkMeta 30 "1850" "bsb07" "Chronik" "1850"));
   ("r/transcriptions/1850/broken.json", ParseError "unexpected EOF");
   ("r/transcriptions/1878/c.json",
    MetaParsed (mkMeta 8 "1878" "bsb12" "Flora" "1878"));
   ("r/transcriptions/x/d.json",
    MetaParsed (mkMeta 5 "" "bsb13" "Ohne Jahr" ""))].

(** The row [createReadme] makes for one work. *)
Definition work_row (meta : Meta) : list string :=
  let ident := meta_identifier meta in
  [meta_title meta; meta_date meta;
   "[" ++ ident ++ "](http://archive.org/details/" ++ ident ++ ")";
   ("[Manifest](https://iiif.archivelab.org/iiif/" ++ ident
    ++ "/manifest.json)") ++ "/"
   ++ ("[Mirador](ttps://iiif.archivelab.org/iiif/" ++ ident ++ ")")].

(** The files that could not be opened or parsed. *)
Definition unreadable (metaFiles : list (string * MetaFile)) : nat :=
  length (List.filter
            (fun file => match file.2 with MetaParsed _ => false | _ => true end)
            metaFiles).

(** What the loop of [createReadme] has gathered once it has gone through
    [files]: every number is the sum over the works read, modulo 2^64. *)
Definition gathered (files : list (string * MetaFile)) (w : World)
  (st : ReadmeStats * World) : Prop :=
  numLinesTotal st.1
  = Int64.wrap (lines_where (fun _ => true) (parsed files))
  /\ (forall y,
        default 0 (yearCount st.1 !! y)
        = Int64.wrap (lines_where (fun m => year_of m =? y) (parsed files)))
  /\ (forall d,
        default 0 (decadeCount st.1 !! d)
        = Int64.wrap (lines_where (fun m => decade_of (year_of m) =? d)
                                  (parsed files)))
  /\ (forall y,
        is_Some (yearCount st.1 !! y)
        <-> exists m, m ∈ parsed files /\ year_of m = y)
  /\ (forall d,
        is_Some (decadeCount st.1 !! d)
        <-> exists m, m ∈ parsed files /\ decade_of (year_of m) = d)
  /\ metaRows st.1 = map work_row (parsed files)
  /\ length (log st.2) = (length (log w) + unreadable files)%nat
  /\ fs st.2 = fs w.

(** ** [Sha1Digest] and [MakeLineIdentifier] *)

(** [crypto/sha1], written after the standard (FIPS 180-4): bytes and 32-bit
    words are numbers, the words taken modulo 2^32. *)
Module Sha1.

Definition mask (x : Z) : Z := x mod 2 ^ 32.

Definition rotl (n : Z) (x : Z) : Z :=
  Z.lor (mask (Z.shiftl x n)) (Z.shiftr x (32 - n)).

Definition bytes_of_string (s : string) : list Z :=
  map (fun c => Z.of_N (N_of_ascii c)) (list_ascii_of_string s).

(** The big-endian bytes of a 64-bit and of a 32-bit number. *)
Definition be64 (x : Z) : list Z :=
  map (fun i => Z.shiftr x (8 * i) mod 256) [7; 6; 5; 4; 3; 2; 1; 0].

Definition word_bytes (x : Z) : list Z :=
  [Z.shiftr x 24 mod 256; Z.shiftr x 16 mod 256; Z.shiftr x 8 mod 256;
   x mod 256].

(** The message with its padding: a one bit, zeros up to 56 modulo 64,
    and the length in bits. *)
Definition pad (msg : list Z) : list Z :=
  let len := Z.of_nat (length msg) in
  (msg ++ [128] ++ replicate (Z.to_nat ((55 - len) mod 64)) 0
   ++ be64 (8 * len))%list.

Fixpoint words (bs : list Z) : list Z :=
  match bs with
  | b0 :: b1 :: b2 :: b3 :: bs' =>
      (((b0 * 256 + b1) * 256 + b2) * 256 + b3) :: words bs'
  | _ => []
  end.

(** The message schedule: [n] more words after the sixteen of the block. *)
Fixpoint schedule (n : nat) (ws : list Z) : list Z :=
  match n with
  | O => ws
  | S n' =>
      let t := length ws in
      let at_ (k : nat) := nth (t - k) ws 0 in
      schedule n'
        (ws ++ [rotl 1 (Z.lxor (Z.lxor (at_ 3%nat) (at_ 8%nat))
                               (Z.lxor (at_ 14%nat) (at_ 16%nat)))])%list
  end.

Definition f (t : nat) (b c d : Z) : Z :=
  if (t <? 20)%nat then Z.lor (Z.land b c) (Z.land (Z.lxor b (2 ^ 32 - 1)) d)
  else if (t <? 40)%nat then Z.lxor (Z.lxor b c) d
  else if (t <? 60)%nat
  then Z.lor (Z.lor (Z.land b c) (Z.land b d)) (Z.land c d)
  else Z.lxor (Z.lxor b c) d.

Definition k (t : nat) : Z :=
  if (t <? 20)%nat then 1518500249
  else if (t <? 40)%nat then 1859775393
  else if (t <? 60)%nat then 2400959708
  else 3395469782.

Definition round (st : nat * (Z * Z * Z * Z * Z)) (w : Z)
  : nat * (Z * Z * Z * Z * Z) :=
  let '(t, (a, b, c, d, e)) := st in
  let temp := mask (rotl 5 a + f t b c d + e + k t + w) in
  (S t, (temp, a, rotl 30 b, c, d)).

(** One block of sixteen words folded into the hash value. *)
Definition compress (h : Z * Z * Z * Z * Z) (block : list Z)
  : Z * Z * Z * Z * Z :=
  let '(h0, h1, h2, h3, h4) := h in
  let '(_, (a, b, c, d, e)) :=
    fold_left round (schedule 64 block) (O, h) in
  (mask (h0 + a), mask (h1 + b), mask (h2 + c), mask (h3 + d), mask (h4 + e)).

Fixpoint blocks (n : nat) (ws : list Z) : list (list Z) :=
  match n with
  | O => []
  | S n' => firstn 16 ws :: blocks n' (skipn 16 ws)
  end.

Definition initial : Z * Z * Z * Z * Z :=
  (1732584193, 4023233417, 2562383102, 271733878, 3285377520).

(** The hash value of a message. *)
Definition state (msg : list Z) : Z * Z * Z * Z * Z :=
  let ws := words (pad msg) in
  fold_left compress (blocks (length ws / 16) ws) initial.

(** [hash.Sum(nil)] after [hash.Write(msg)]: the twenty bytes. *)
Definition Sum (msg : list Z) : list Z :=
  let '(h0, h1, h2, h3, h4) := state msg in
  (word_bytes h0 ++ word_bytes h1 ++ word_bytes h2 ++ word_bytes h3
   ++ word_bytes h4)%list.

End Sha1.

(** The lower-case hexadecimal digit of a number below sixteen. *)
Definition hex_digit (d : Z) : ascii :=
  nth (Z.to_nat d)
      (list_ascii_of_string "0123456789abcdef") "0"%char.

(** [fmt.Sprintf("%x", bytes)] *)
Fixpoint hex (bytes : list Z) : string :=
  match bytes with
  | [] => EmptyString
  | b :: bytes' =>
      String (hex_digit (b / 16)) (String (hex_digit (b mod 16)) (hex bytes'))
  end.

(** [func Sha1Digest(inp []byte) string] *)
Definition Sha1Digest (inp : string) : string :=
  substring 0 8 (hex (Sha1.Sum (Sha1.bytes_of_string inp))).

(** [func MakeLineIdentifier(volumeID string, line OCRLine) string] *)
Definition MakeLineIdentifier (volumeID : string) (line : OCRLine) : string :=
  let shaHash := Sha1Digest (ImageURL line) in
  volumeID ++ "_" ++ shaHash.

Definition is_hex_digit (c : ascii) : bool :=
  existsb (Ascii.eqb c) (list_ascii_of_string "0123456789abcdef").

(** * Properties *)

(** ** Machine integers *)

Lemma Int64_wrap_in_range z : Int64.in_range z -> Int64.wrap z = z.
Proof.
  unfold Int64.in_range, Int64.min_int, Int64.max_int, Int64.wrap.
  intros Hz. rewrite Z.mod_small; lia.
Qed.

Lemma Int64_add_exact a b :
  Int64.in_range a -> 0 <= b -> a + b <= Int64.max_int ->
  Int64.add a b = a + b.
Proof.
  intros Ha Hb Hab. apply Int64_wrap_in_range.
  unfold Int64.in_range in *. lia.
Qed.

(** ** [ProgressReader] *)

Section ProgressReaderFacts.
Context {R : Type} `{Reader R}.

Lemma credited_nonneg n len_p : 0 <= credited n len_p.
Proof. unfold credited. destruct (Z.ltb_spec 0 n); lia. Qed.

Lemma credits_nonneg (s : R) bufs : 0 <= credits s bufs.
Proof.
  revert s. induction bufs as [|len_p bufs IH]; intros s; simpl; [lia|].
  destruct (reader_read s len_p) as [[n err] s'].
  pose proof (credited_nonneg n len_p). specialize (IH s'). lia.
Qed.

(** One call: the proxied reader's answer is handed on, and [BytesRead]
    grows by [credited], modulo 2^64. *)
Lemma Read_unfold (r : ProgressReader R) len_p :
  Read r len_p =
    let '(n, err, s') := reader_read (proxiedReader r) len_p in
    (n, err, mkProgressReader s' (Int64.add (BytesRead r) (credited n len_p))).
Proof.
  unfold Read, credited.
  destruct (reader_read (proxiedReader r) len_p) as [[n err] s'].
  destruct (0 <? n); reflexivity.
Qed.

(** Without overflow the counter after a run holds the start value plus
    all that was credited. *)
Lemma after_reads_count (bufs : list nat) : forall r : ProgressReader R,
  Int64.in_range (BytesRead r) ->
  BytesRead r + credits (proxiedReader r) bufs <= Int64.max_int ->
  BytesRead (after_reads r bufs)
  = BytesRead r + credits (proxiedReader r) bufs.
Proof.
  induction bufs as [|len_p bufs IH]; intros r Hr Hsum.
  - simpl. lia.
  - cbn [after_reads credits] in *. rewrite Read_unfold.
    destruct (reader_read (proxiedReader r) len_p) as [[n err] s'] eqn:E.
    pose proof (credited_nonneg n len_p) as Hc.
    pose proof (credits_nonneg s' bufs) as Hcs.
    cbn [snd]. rewrite IH; cbn [BytesRead proxiedReader].
    + rewrite Int64_add_exact; [lia | done | done | lia].
    + rewrite Int64_add_exact; [| done | done | lia].
      unfold Int64.in_range in *. lia.
    + rewrite Int64_add_exact; [lia | done | done | lia].
Qed.

(** Every call hands on what the proxied reader answered. *)
Lemma reads_proxied (bufs : list nat) : forall r : ProgressReader R,
  map fst (reads r bufs) = proxied_reads (proxiedReader r) bufs.
Proof.
  induction bufs as [|len_p bufs IH]; intros r; [reflexivity|].
  cbn [reads proxied_reads]. rewrite Read_unfold.
  destruct (reader_read (proxiedReader r) len_p) as [[n err] s'].
  cbn [map fst]. f_equal. apply IH.
Qed.

(** Without overflow the run of [BytesRead] values never falls. *)
Lemma reads_sorted (bufs : list nat) : forall r : ProgressReader R,
  Int64.in_range (BytesRead r) ->
  BytesRead r + credits (proxiedReader r) bufs <= Int64.max_int ->
  Sorted Z.le
    (BytesRead r :: map (fun step => BytesRead step.2) (reads r bufs)).
Proof.
  induction bufs as [|len_p bufs IH]; intros r Hr Hsum.
  - repeat constructor.
  - cbn [reads credits] in *. rewrite Read_unfold.
    destruct (reader_read (proxiedReader r) len_p) as [[n err] s'] eqn:E.
    pose proof (credited_nonneg n len_p) as Hc.
    pose proof (credits_nonneg s' bufs) as Hcs.
    cbn [map snd].
    assert (Hadd : Int64.add (BytesRead r) (credited n len_p)
                   = BytesRead r + credited n len_p)
      by (apply Int64_add_exact; [done | done | lia]).
    constructor.
    + apply (IH (mkProgressReader s' _)); cbn [BytesRead proxiedReader];
        rewrite Hadd; [unfold Int64.in_range in *; lia | lia].
    + constructor. cbn [BytesRead]. lia.
Qed.

End ProgressReaderFacts.

(** C10, as stated, fails: [BytesRead] is an [int64], and the addition
    wraps.  A reader whose counter stands at 2^63 - 2 and whose next call
    reads four bytes has a negative counter afterwards. *)
Lemma Read_wraps_past_int64 :
  let r := mkProgressReader (mkMemReader 10) (Int64.max_int - 1) in
  (Read r 4).1.1 = 4
  /\ BytesRead (Read r 4).2 = -9223372036854775806
  /\ BytesRead (Read r 4).2 < BytesRead r.
Proof. vm_compute. repeat split. Qed.

(** C10, amended. Over every run of calls to [Read] each call returns the
    byte count and the error the wrapped reader produced, and every call
    adds a non-negative amount; as long as the running total stays within
    [int64], [BytesRead] never decreases and ends at the start value plus
    all that was added. *)
Theorem Read_monotone_and_transparent {R : Type} `{Reader R}
  (r : ProgressReader R) (bufs : list nat) :
  map fst (reads r bufs) = proxied_reads (proxiedReader r) bufs
  /\ 0 <= credits (proxiedReader r) bufs
  /\ (Int64.in_range (BytesRead r) ->
      BytesRead r + credits (proxiedReader r) bufs <= Int64.max_int ->
      Sorted Z.le
        (BytesRead r :: map (fun step => BytesRead step.2) (reads r bufs))
      /\ BytesRead (after_reads r bufs)
         = BytesRead r + credits (proxiedReader r) bufs).
Proof.
  split; [apply reads_proxied |].
  split; [apply credits_nonneg |].
  intros Hr Hsum. split; [by apply reads_sorted | by apply after_reads_count].
Qed.

Lemma Read_monotone_and_transparent_witness :
  let r := NewProgressReader (mkMemReader 5) in
  map fst (reads r [4; 4; 4]%nat) = [(4, None); (1, None); (0, Some EOF)]
  /\ Sorted Z.le (0 :: map (fun step => BytesRead step.2) (reads r [4; 4; 4]%nat))
  /\ BytesRead (after_reads r [4; 4; 4]%nat) = 9.
Proof.
  intros r.
  destruct (Read_monotone_and_transparent r [4; 4; 4]%nat)
    as (H1 & _ & H2).
  destruct H2 as [Hsorted Hend].
  - unfold Int64.in_range, Int64.min_int, Int64.max_int; simpl; lia.
  - unfold Int64.max_int; vm_compute; discriminate.
  - split; [exact H1 |]. split; [exact Hsorted | exact Hend].
Defined.

(** Reading a stream of [L] bytes to exhaustion through a buffer of [len_p]
    bytes: the terminal call, which returns [0, io.EOF], is credited with
    the whole buffer, so the counter ends [len_p] above [L]. *)
Lemma read_all_MemReader (fuel : nat) : forall (L b : Z) (len_p : nat),
  0 <= L -> (0 < len_p)%nat ->
  L + Z.of_nat len_p <= Z.of_nat fuel * Z.of_nat len_p ->
  Int64.in_range b -> b + L + Z.of_nat len_p <= Int64.max_int ->
  read_all fuel (mkProgressReader (mkMemReader L) b) len_p
  = Some (mkProgressReader (mkMemReader 0) (b + L + Z.of_nat len_p)).
Proof.
  induction fuel as [|fuel IH]; intros L b len_p HL Hp Hfuel Hb Hsum.
  - lia.
  - cbn [read_all]. unfold Read, reader_read, MemReader_Reader.
    cbn [proxiedReader BytesRead remaining].
    destruct (Z.leb_spec L 0) as [HL0|HL0].
    + assert (L = 0) by lia. subst L.
      change (0 <? 0) with false. cbv iota.
      rewrite Int64_add_exact by (done || lia).
      do 2 f_equal. lia.
    + set (n := Z.min (Z.of_nat len_p) L).
      assert (Hn : 0 < n <= L) by (subst n; lia).
      destruct (Z.ltb_spec 0 n) as [_|]; [|lia].
      rewrite Int64_add_exact by (done || lia).
      rewrite IH; [do 2 f_equal; lia | lia | done | | | lia].
      * rewrite Nat2Z.inj_succ in Hfuel.
        replace (Z.succ (Z.of_nat fuel) * Z.of_nat len_p)
          with (Z.of_nat fuel * Z.of_nat len_p + Z.of_nat len_p) in Hfuel
          by lia.
        subst n.
        destruct (Z.min_spec (Z.of_nat len_p) L) as [[? ->]|[? ->]]; [lia|].
        destruct fuel as [|fuel']; [lia|].
        rewrite Nat2Z.inj_succ. nia.
      * unfold Int64.in_range in *. lia.
Qed.

(** C3. A stream of 5 bytes read to exhaustion through a 4-byte buffer: the
    reads return 4, 1 and then 0 with [io.EOF]; no read before the terminal
    one returns zero bytes, and [BytesRead] ends at 9, not at the length 5 of
    the stream. *)
Theorem ProgressReader_counts_past_stream_end :
  proxied_reads (mkMemReader 5) [4; 4; 4]%nat
  = [(4, None); (1, None); (0, Some EOF)]
  /\ BytesRead <$> read_all 3 (NewProgressReader (mkMemReader 5)) 4 = Some 9.
Proof. split; reflexivity. Qed.

(** ** [CacheLines] *)

Lemma await_received printProgress events : forall w,
  (await printProgress events w).1 = received events
  /\ fs (await printProgress events w).2 = fs w
  /\ log (await printProgress events w).2 = log w.
Proof.
  induction events as [|[v|err|lines] events IH]; intros w; cbn [await received];
    try done.
  destruct (IH (if printProgress then bar_ops [BarSetCurrent v] w else w))
    as (-> & -> & ->).
  by destruct printProgress.
Qed.

(** A failed attempt: the loop goes round with the rest of the script; the
    file system is as it was, and a mismatch leaves no trace at all. *)
Lemma CacheLines_failed_step cachePath year printProgress a script w :
  failed a = true ->
  exists w',
    CacheLines cachePath year printProgress (a :: script) w
    = CacheLines cachePath year printProgress script w'
    /\ fs w' = fs w
    /\ (mismatch a = true -> w' = w).
Proof.
  unfold failed, mismatch, fetch_fails. intros Hfail.
  cbn [CacheLines]. destruct (isFrak a) eqn:Efrak; cbn [negb] in *.
  - cbn [orb andb] in Hfail.
    destruct (fetched a) as [err|events] eqn:Efetch.
    + eexists. split; [reflexivity|]. split; [reflexivity | discriminate].
    + match goal with |- context [await ?pp ?evs ?w0] =>
        destruct (await_received pp evs w0) as (Hrecv & Hfs & _);
        destruct (await pp evs w0) as [recv w1] eqn:Eawait
      end.
      cbn [fst snd] in *. rewrite <- Hrecv in Hfail.
      destruct recv as [lines|err|]; try discriminate.
      eexists. split; [reflexivity|]. split; [|discriminate].
      cbn [logf fs]. rewrite Hfs. by destruct printProgress.
  - exists w. done.
Qed.

Lemma CacheLines_failed_prefix cachePath year printProgress bad :
  forall script w,
  forallb failed bad = true ->
  exists w',
    CacheLines cachePath year printProgress (bad ++ script)%list w
    = CacheLines cachePath year printProgress script w'
    /\ fs w' = fs w.
Proof.
  induction bad as [|a bad IH]; intros script w Hbad.
  - by exists w.
  - cbn [forallb] in Hbad. apply andb_prop in Hbad as [Ha Hbad].
    destruct (CacheLines_failed_step cachePath year printProgress a
                (bad ++ script)%list w Ha) as (w1 & Heq & Hfs & _).
    destruct (IH script w1 Hbad) as (w2 & Heq2 & Hfs2).
    exists w2. cbn [app]. rewrite Heq, Heq2. split; [done | congruence].
Qed.

(** An attempt that delivers lines: they are written to the file named
    after the identifier, and its path is returned. *)
Lemma CacheLines_delivers_step cachePath year printProgress a lines script w :
  delivers a lines ->
  let filePath :=
    Go.Join (Go.Join cachePath (Go.Itoa year))
            (Identifier (entry a) ++ ".json") in
  exists w',
    CacheLines cachePath year printProgress (a :: script) w
    = (Returned filePath, script, w')
    /\ fs w' = (WriteFile (fs w) filePath (LinesJSON lines)).1.
Proof.
  intros (Hfrak & events & Hfetch & Hrecv) filePath.
  cbn [CacheLines]. rewrite Hfrak, Hfetch. cbn [negb].
  match goal with |- context [await ?pp ?evs ?w0] =>
    destruct (await_received pp evs w0) as (Hr & Hfs & _);
    destruct (await pp evs w0) as [recv w1] eqn:Eawait
  end.
  cbn [fst snd] in *. rewrite Hrecv in Hr. subst recv.
  eexists. split; [reflexivity|].
  assert (fs w1 = fs w) as -> by (rewrite Hfs; by destruct printProgress).
  by destruct printProgress.
Qed.

Lemma WriteFile_ReadFile fs0 p data :
  (WriteFile fs0 p data).2 = None ->
  ReadFile (WriteFile fs0 p data).1 p = Some data.
Proof.
  unfold WriteFile, ReadFile.
  destruct (is_dir fs0 (Go.Clean p)); [discriminate|].
  destruct (is_dir fs0 (Go.Dir (Go.Clean p))); [|discriminate].
  intros _. cbn [fst]. by rewrite lookup_insert_eq.
Qed.

(** C5. An attempt that ends in a classification mismatch or in a fetch
    error is not the end of the call: [CacheLines] goes on with the next
    sample, the outcome of the call is the outcome of the loop from there,
    nothing was written, and a mismatch is not even logged. *)
Theorem CacheLines_mismatch_and_fetch_error_recoverable
  cachePath year printProgress a script w :
  mismatch a = true \/ fetch_fails a = true ->
  exists w',
    CacheLines cachePath year printProgress (a :: script) w
    = CacheLines cachePath year printProgress script w'
    /\ fs w' = fs w
    /\ (mismatch a = true -> w' = w).
Proof.
  intros Hfail. apply CacheLines_failed_step.
  unfold failed. destruct Hfail as [-> | ->]; [done | apply orb_true_r].
Qed.

Lemma CacheLines_mismatch_and_fetch_error_recoverable_witness :
  exists w',
    CacheLines "/cache" 1850 false
      [fetch_error_attempt; good_attempt "abc"] world_1850
    = CacheLines "/cache" 1850 false [good_attempt "abc"] w'
    /\ fs w' = fs world_1850
    /\ (mismatch fetch_error_attempt = true -> w' = world_1850).
Proof.
  apply (CacheLines_mismatch_and_fetch_error_recoverable
           "/cache" 1850 false fetch_error_attempt
           [good_attempt "abc"] world_1850).
  right. reflexivity.
Defined.

(** C6. When a fetch delivers the lines of identifier I for year Y, after
    any number of failed attempts, [CacheLines] hands the marshalled lines
    to [ioutil.WriteFile] for the path cacheRoot/Y/I.json and returns exactly
    that path; when the write goes through, the file holds those lines. *)
Theorem CacheLines_writes_and_returns_path
  cachePath year printProgress bad a lines rest w :
  forallb failed bad = true ->
  delivers a lines ->
  let filePath :=
    Go.Join (Go.Join cachePath (Go.Itoa year))
            (Identifier (entry a) ++ ".json") in
  exists w',
    CacheLines cachePath year printProgress (bad ++ a :: rest)%list w
    = (Returned filePath, rest, w')
    /\ fs w' = (WriteFile (fs w) filePath (LinesJSON lines)).1
    /\ ((WriteFile (fs w) filePath (LinesJSON lines)).2 = None ->
        ReadFile (fs w') filePath = Some (LinesJSON lines)).
Proof.
  intros Hbad Hgood filePath.
  destruct (CacheLines_failed_prefix cachePath year printProgress bad
              (a :: rest) w Hbad) as (w1 & Heq & Hfs).
  destruct (CacheLines_delivers_step cachePath year printProgress a lines
              rest w1 Hgood) as (w2 & Heq2 & Hfs2).
  exists w2. rewrite Heq, Heq2. split; [reflexivity|].
  rewrite Hfs in Hfs2. split; [exact Hfs2|].
  intros Hok. rewrite Hfs2. by apply WriteFile_ReadFile.
Qed.

Lemma CacheLines_writes_and_returns_path_witness :
  exists w',
    CacheLines "/cache" 1850 true
      [mismatch_attempt; progress_error_attempt; good_attempt "abc";
       good_attempt "later"] world_1850
    = (Returned "/cache/1850/abc.json", [good_attempt "later"], w')
    /\ ReadFile (fs w') "/cache/1850/abc.json" = Some (LinesJSON sample_lines).
Proof.
  destruct (CacheLines_writes_and_returns_path "/cache" 1850 true
              [mismatch_attempt; progress_error_attempt] (good_attempt "abc")
              sample_lines [good_attempt "later"] world_1850)
    as (w' & Heq & _ & Hread).
  - reflexivity.
  - split; [reflexivity|]. eexists. split; reflexivity.
  - exists w'. split; [exact Heq|]. apply Hread. reflexivity.
Defined.

Lemma CacheLines_all_failed cachePath year printProgress bad w :
  forallb failed bad = true ->
  exists w',
    CacheLines cachePath year printProgress bad w = (ScriptEnded, [], w')
    /\ fs w' = fs w.
Proof.
  intros Hbad.
  destruct (CacheLines_failed_prefix cachePath year printProgress bad [] w Hbad)
    as (w' & Heq & Hfs).
  rewrite app_nil_r in Heq. exists w'. by rewrite Heq.
Qed.

Lemma forallb_replicate_fetch_error n :
  forallb fetch_fails (replicate n fetch_error_attempt) = true
  /\ forallb failed (replicate n fetch_error_attempt) = true.
Proof. induction n as [|n IH]; [split; reflexivity | exact IH]. Qed.

(** C2, as stated, fails: [CacheLines] has no retry budget.  Whatever the
    bound, a year whose first fetches all fail (every sample is in the
    target script, and [FetchLines] answers each with an error) makes the
    call go through more consecutive failed fetches than the bound, and the
    call has still not ended. *)
Lemma CacheLines_no_retry_budget : ~ exists N : nat, retry_budget N.
Proof.
  intros [N Hbudget].
  destruct (forallb_replicate_fetch_error (S N)) as [Hfetch Hfailed].
  specialize (Hbudget "/cache" 1850 false
                (replicate (S N) fetch_error_attempt) world_1850 Hfetch).
  destruct (CacheLines_all_failed "/cache" 1850 false
              (replicate (S N) fetch_error_attempt) world_1850 Hfailed)
    as (w' & Heq & _).
  rewrite Heq in Hbudget. unfold attempts_made in Hbudget.
  cbn [fst snd length] in Hbudget.
  rewrite length_replicate in Hbudget. lia.
Qed.

(** C2, amended. [CacheLines] keeps no count of failures and has no error
    result: after any number of consecutive failed attempts, failed fetches
    as well as mismatches, it samples again.  While the attempts fail the
    call is still running, whatever their number, and it returns, with the
    path of the file, at the first attempt that delivers lines, having made
    every attempt before it. *)
Theorem CacheLines_retries_until_success
  cachePath year printProgress bad a lines rest w :
  forallb failed bad = true ->
  delivers a lines ->
  (CacheLines cachePath year printProgress bad w).1 = (ScriptEnded, [])
  /\ exists filePath w',
       CacheLines cachePath year printProgress (bad ++ a :: rest)%list w
       = (Returned filePath, rest, w')
       /\ attempts_made (bad ++ a :: rest)%list rest = S (length bad).
Proof.
  intros Hbad Hgood. split.
  - destruct (CacheLines_all_failed cachePath year printProgress bad w Hbad)
      as (w' & -> & _). reflexivity.
  - destruct (CacheLines_failed_prefix cachePath year printProgress bad
                (a :: rest) w Hbad) as (w1 & Heq & _).
    destruct (CacheLines_delivers_step cachePath year printProgress a lines
                rest w1 Hgood) as (w2 & Heq2 & _).
    eexists _, w2. rewrite Heq, Heq2. split; [reflexivity|].
    unfold attempts_made. rewrite length_app. cbn [length]. lia.
Qed.

Lemma CacheLines_retries_until_success_witness :
  (CacheLines "/cache" 1850 false (replicate 50 fetch_error_attempt)
     world_1850).1 = (ScriptEnded, [])
  /\ exists filePath w',
       CacheLines "/cache" 1850 false
         (replicate 50 fetch_error_attempt ++ [good_attempt "abc"])%list
         world_1850
       = (Returned filePath, [], w')
       /\ attempts_made
            (replicate 50 fetch_error_attempt ++ [good_attempt "abc"])%list []
          = 51%nat.
Proof.
  apply (CacheLines_retries_until_success "/cache" 1850 false
           (replicate 50 fetch_error_attempt) (good_attempt "abc") sample_lines
           [] world_1850).
  - reflexivity.
  - split; [reflexivity|]. eexists. split; reflexivity.
Defined.

(** C7. The write of the cache file fails (the year directory is missing):
    [CacheLines] still returns the path as the result of the fill, the only
    log line is the one written before the fetch, and no file exists. *)
Theorem CacheLines_ignores_write_failure :
  let filePath := "/cache/1850/abc.json" in
  (WriteFile (fs world_no_year_dir) filePath (LinesJSON sample_lines)).2
  = Some (Err "no such file or directory")
  /\ CacheLines "/cache" 1850 false [good_attempt "abc"] world_no_year_dir
     = (Returned filePath, [],
        mkWorld (fs world_no_year_dir)
                ["Caching lines for 1850 from abc"] [] [])
  /\ ReadFile (fs world_no_year_dir) filePath = None.
Proof. vm_compute. repeat split. Qed.

(** ** [cacheWatcher] *)

(** The fill loop leaves only when the year's list has three entries: its
    three rounds of fuel are enough. *)
Lemma fill_up_exit fuel basePath year : forall cacheFiles script w cacheFiles' rest w',
  (3 <= fuel + length (cacheFiles !!! year))%nat ->
  fill_up fuel basePath year cacheFiles script w = (Returned cacheFiles', rest, w') ->
  (3 <= length (cacheFiles' !!! year))%nat.
Proof.
  induction fuel as [|fuel IH]; intros cf script w cf' rest w' Hfuel Hrun;
    cbn [fill_up] in Hrun.
  - inversion Hrun; subst. lia.
  - destruct (Nat.ltb_spec (length (cf !!! year)) 3) as [Hlt|Hge].
    + destruct (CacheLines basePath year true script w) as [[[p| |] s1] w1];
        try discriminate.
      eapply IH; [|exact Hrun].
      rewrite lookup_total_insert_eq, length_app. cbn [length]. lia.
    + inversion Hrun; subst. lia.
Qed.

(** A list that has three entries already is not filled up: the filler is
    not called. *)
Lemma fill_up_stocked fuel basePath year cacheFiles script w :
  (3 <= length (cacheFiles !!! year))%nat ->
  fill_up fuel basePath year cacheFiles script w
  = (Returned cacheFiles, script, w).
Proof.
  intros Hlen. destruct fuel as [|fuel]; [reflexivity|]. cbn [fill_up].
  destruct (Nat.ltb_spec (length (cacheFiles !!! year)) 3); [lia | reflexivity].
Qed.

(** After the scan of a year directory the year's list holds one empty
    string for every entry of the directory, and then the path of every
    cached file. *)
Lemma scan_length year yearPath dirContent : forall cacheFiles,
  length (fold_left (scan_entry year yearPath) dirContent cacheFiles !!! year)
  = (length (cacheFiles !!! year)
     + length (List.filter
                 (fun f => negb (IsDir f)
                           && String.eqb (Go.Ext (Name f)) ".json")
                 dirContent))%nat.
Proof.
  induction dirContent as [|f dirContent IH]; intros cf;
    cbn [fold_left List.filter].
  - cbn. lia.
  - rewrite IH. unfold scan_entry.
    destruct (IsDir f); cbn [orb negb andb]; [lia|].
    destruct (String.eqb (Go.Ext (Name f)) ".json"); cbn [negb]; [|lia].
    rewrite lookup_total_insert_eq, length_app. cbn [length]. lia.
Qed.

(** A year directory is skipped by the fill loop as soon as the number of
    its entries plus the number of its cached files reaches three. *)
Lemma watch_dirs_skips_fill basePath yearDir yearDirs cacheFiles script w :
  IsDir yearDir = true ->
  let yearPath := Go.Join basePath (Name yearDir) in
  let dirContent := default [] (ReadDir (fs w) yearPath) in
  (3 <= length dirContent + length (cached_files (fs w) yearPath))%nat ->
  exists cacheFiles',
    watch_dirs basePath (yearDir :: yearDirs) cacheFiles script w
    = watch_dirs basePath yearDirs cacheFiles' script w.
Proof.
  intros Hdir yearPath dirContent Hstock.
  cbn [watch_dirs]. rewrite Hdir. cbn [negb].
  fold yearPath. fold dirContent.
  rewrite fill_up_stocked; [by eexists|].
  rewrite scan_length, lookup_total_insert_eq, length_replicate.
  unfold cached_files in Hstock. rewrite length_map in Hstock. exact Hstock.
Qed.

(** C1. A year directory that holds two cached files: the watcher's fill
    phase ends without a single call of the filler (the script is untouched
    and the world unchanged), and the directory still holds two cached
    files, fewer than three. *)
Theorem cacheWatcher_leaves_year_understocked : forall script,
  cacheWatcher "/cache" script world_two_cached
  = (Returned (Some ∅, None), script, world_two_cached)
  /\ cached_files (fs world_two_cached) "/cache/1850" = ["a.json"; "b.json"].
Proof. intros script. split; reflexivity. Qed.

(** On an empty year directory the fill loop does run the filler three
    times. *)
Example cacheWatcher_fills_empty_year :
  let '(outcome, rest, w) :=
    cacheWatcher "/cache"
      [good_attempt "x1"; mismatch_attempt; good_attempt "x2";
       fetch_error_attempt; good_attempt "x3"; good_attempt "x4"]
      world_1850 in
  outcome = Returned (Some ∅, None)
  /\ rest = [good_attempt "x4"]
  /\ cached_files (fs w) "/cache/1850" = ["x1.json"; "x2.json"; "x3.json"].
Proof. vm_compute. repeat split. Qed.

(** ** The Identifier Index *)

(** Every bucket of a built index is non-empty and holds entries of the
    catalog whose year is the bucket's key. *)
Lemma Build_bucket catalog : forall year bucket,
  IdentifierIndex.Build catalog !! year = Some bucket ->
  bucket <> [] /\ Forall (fun e => Year e = year /\ e ∈ catalog) bucket.
Proof.
  induction catalog as [|e catalog IH]; intros year bucket Hlookup.
  - cbn in Hlookup. by rewrite lookup_empty in Hlookup.
  - cbn [IdentifierIndex.Build foldr] in Hlookup.
    fold (IdentifierIndex.Build catalog) in Hlookup.
    unfold IdentifierIndex.add in Hlookup.
    destruct (decide (Year e = year)) as [<-|Hne].
    + rewrite lookup_insert_eq in Hlookup. inversion Hlookup; subst bucket.
      split; [discriminate|]. constructor; [split; [done | by left]|].
      unfold lookup_total, map_lookup_total.
      destruct (IdentifierIndex.Build catalog !! Year e) as [b|] eqn:Eb;
        cbn [default]; [|constructor].
      destruct (IH _ _ Eb) as [_ Hall].
      eapply Forall_impl; [exact Hall|].
      intros x [Hy Hin]. split; [done | by right].
    + rewrite lookup_insert_ne in Hlookup by done.
      destruct (IH _ _ Hlookup) as [Hnil Hall]. split; [done|].
      eapply Forall_impl; [exact Hall|].
      intros x [Hy Hin]. split; [done | by right].
Qed.

(** C4. For a year present in the index, [Random(year)] returns an entry,
    one of the catalog, and its year is the year asked for. *)
Theorem Random_same_year (catalog : list IdentifierEntry) (year : Z)
  (rnd : nat) :
  is_Some (IdentifierIndex.Build catalog !! year) ->
  exists e,
    IdentifierIndex.Random (IdentifierIndex.Build catalog) year rnd = Some e
    /\ Year e = year
    /\ e ∈ catalog.
Proof.
  intros [bucket Hbucket]. unfold IdentifierIndex.Random. rewrite Hbucket.
  destruct (Build_bucket _ _ _ Hbucket) as [Hnil Hall].
  assert (Hlt : (rnd mod length bucket < length bucket)%nat).
  { apply Nat.mod_upper_bound. by destruct bucket. }
  destruct (lookup_lt_is_Some_2 bucket _ Hlt) as [e He].
  exists e. split; [exact He|].
  exact (proj1 (Forall_lookup _ bucket) Hall _ _ He).
Qed.

Lemma Random_same_year_witness :
  exists e,
    IdentifierIndex.Random (IdentifierIndex.Build sample_catalog) 1850 7
    = Some e
    /\ Year e = 1850
    /\ e ∈ sample_catalog.
Proof.
  apply (Random_same_year sample_catalog 1850 7).
  eexists. vm_compute. reflexivity.
Defined.

(** With no entry for the year there is nothing to return. *)
Lemma Random_absent_year catalog year rnd :
  IdentifierIndex.Build catalog !! year = None ->
  IdentifierIndex.Random (IdentifierIndex.Build catalog) year rnd = None.
Proof. unfold IdentifierIndex.Random. by intros ->. Qed.

(** ** [InitCache] *)








(** ** [main] *)

(** C9. Whatever the command line, [main] panics with "repoPath must be
    set!": the flag's value is looked at before [flag.Parse] runs, when it
    still is the default.  The world and the globals are untouched: neither
    [InitCache] nor [web.Serve] is reached. *)
Theorem main_always_panics (args : list string) (env : gmap string string)
  (cwd : string) (catalog : option (list IdentifierEntry))
  (w : World) (g : Globals) :
  main args env cwd catalog w g = (Panicked "repoPath must be set!", w, g).
Proof.
  unfold main.
  assert (Hdefault : string_at (flag_String "repoPath" ""
                                  (flag_Bool "debug" false ∅)) "repoPath" = "").
  { unfold string_at, flag_String. by rewrite lookup_insert_eq. }
  by rewrite Hdefault.
Qed.

(** Had the flags been parsed first, the argument would have been seen. *)
Example Parse_sees_repoPath :
  match Parse ["-debug"; "-repoPath"; "/srv/corpus"]
              (flag_String "repoPath" "" (flag_Bool "debug" false ∅)) with
  | inl formal =>
      bool_at formal "debug" = true
      /\ string_at formal "repoPath" = "/srv/corpus"
  | inr _ => False
  end.
Proof. vm_compute. split; reflexivity. Qed.

(** * Further properties *)

(** ** [ProgressReader] *)

(** X1. A fresh or used [ProgressReader] over an in-memory stream of [L]
    bytes, read to [io.EOF] through a buffer of [len_p > 0] bytes, ends
    (given enough rounds, and no overflow) with the stream used up and the
    counter [len_p] above the bytes of the stream. *)
Theorem read_all_counts_stream_plus_buffer
  (fuel : nat) (L b : Z) (len_p : nat) :
  0 <= L -> (0 < len_p)%nat ->
  L + Z.of_nat len_p <= Z.of_nat fuel * Z.of_nat len_p ->
  Int64.in_range b -> b + L + Z.of_nat len_p <= Int64.max_int ->
  read_all fuel (mkProgressReader (mkMemReader L) b) len_p
  = Some (mkProgressReader (mkMemReader 0) (b + L + Z.of_nat len_p)).
Proof. apply read_all_MemReader. Qed.

Lemma read_all_counts_stream_plus_buffer_witness :
  read_all 4 (NewProgressReader (mkMemReader 10)) 4
  = Some (mkProgressReader (mkMemReader 0) 14).
Proof.
  apply (read_all_counts_stream_plus_buffer 4 10 0 4);
    unfold Int64.in_range, Int64.min_int, Int64.max_int; lia.
Defined.

Lemma credits_split {R : Type} `{Reader R} (bufs : list nat) : forall s : R,
  credits s bufs = delivered s bufs + phantom s bufs
  /\ 0 <= phantom s bufs.
Proof.
  induction bufs as [|len_p bufs IH]; intros s; cbn [credits delivered phantom].
  - lia.
  - destruct (reader_read s len_p) as [[n err] s'].
    destruct (IH s') as [Heq Hge]. unfold credited.
    destruct (0 <? n); lia.
Qed.

Lemma phantom_zero {R : Type} `{Reader R} (bufs : list nat) : forall s : R,
  Forall (fun answer => 0 < answer.1) (proxied_reads s bufs) ->
  phantom s bufs = 0.
Proof.
  induction bufs as [|len_p bufs IH]; intros s Hpos;
    cbn [phantom proxied_reads] in *; [reflexivity|].
  destruct (reader_read s len_p) as [[n err] s'].
  inversion Hpos as [|? ? Hn Hrest]; subst. cbn [fst] in Hn.
  rewrite (IH s' Hrest). destruct (Z.ltb_spec 0 n); lia.
Qed.

(** X2. As long as the total stays within [int64], [BytesRead] after a run
    is the start value plus the bytes delivered plus the buffer length of
    every call that delivered nothing: it never falls short of the bytes
    delivered, and it is exact when every call of the run delivered
    something. *)
Theorem BytesRead_is_delivered_plus_phantom {R : Type} `{Reader R}
  (r : ProgressReader R) (bufs : list nat) :
  Int64.in_range (BytesRead r) ->
  BytesRead r + credits (proxiedReader r) bufs <= Int64.max_int ->
  BytesRead (after_reads r bufs)
  = BytesRead r + delivered (proxiedReader r) bufs
    + phantom (proxiedReader r) bufs
  /\ BytesRead r + delivered (proxiedReader r) bufs
     <= BytesRead (after_reads r bufs)
  /\ (Forall (fun answer => 0 < answer.1)
             (proxied_reads (proxiedReader r) bufs) ->
      BytesRead (after_reads r bufs)
      = BytesRead r + delivered (proxiedReader r) bufs).
Proof.
  intros Hr Hsum.
  rewrite (after_reads_count bufs r Hr Hsum).
  destruct (credits_split bufs (proxiedReader r)) as [-> Hge].
  split; [lia|]. split; [lia|].
  intros Hpos. rewrite (phantom_zero bufs _ Hpos). lia.
Qed.

Lemma BytesRead_is_delivered_plus_phantom_witness :
  let r := NewProgressReader (mkMemReader 10) in
  BytesRead (after_reads r [4; 4; 4]%nat) = 0 + 10 + 0
  /\ BytesRead (after_reads r [4; 4; 4; 4]%nat) = 0 + 10 + 4.
Proof.
  intros r. split.
  - destruct (BytesRead_is_delivered_plus_phantom r [4; 4; 4]%nat)
      as (Heq & _).
    + unfold Int64.in_range, Int64.min_int, Int64.max_int; simpl; lia.
    + unfold Int64.max_int; vm_compute; discriminate.
    + exact Heq.
  - destruct (BytesRead_is_delivered_plus_phantom r [4; 4; 4; 4]%nat)
      as (Heq & _).
    + unfold Int64.in_range, Int64.min_int, Int64.max_int; simpl; lia.
    + unfold Int64.max_int; vm_compute; discriminate.
    + exact Heq.
Defined.

(** ** [CacheLines] *)

(** X3. A fetch whose channels carry neither lines nor an error stalls the
    call: after any failed attempts, [CacheLines] waits in its [select] for
    ever; it neither returns nor samples again, and nothing is written. *)
Theorem CacheLines_blocks_on_silent_fetch
  cachePath year printProgress bad a events rest w :
  forallb failed bad = true ->
  isFrak a = true ->
  fetched a = Fetching events ->
  received events = Starved ->
  exists w',
    CacheLines cachePath year printProgress (bad ++ a :: rest)%list w
    = (Blocked, rest, w')
    /\ fs w' = fs w.
Proof.
  intros Hbad Hfrak Hfetch Hrecv.
  destruct (CacheLines_failed_prefix cachePath year printProgress bad
              (a :: rest) w Hbad) as (w1 & -> & Hfs).
  cbn [CacheLines]. rewrite Hfrak, Hfetch. cbn [negb].
  match goal with |- context [await ?pp ?evs ?w0] =>
    destruct (await_received pp evs w0) as (Hr & Hfs' & _);
    destruct (await pp evs w0) as [recv w2] eqn:Eawait
  end.
  cbn [fst snd] in *. rewrite Hrecv in Hr. subst recv.
  eexists. split; [reflexivity|].
  rewrite Hfs', <- Hfs. by destruct printProgress.
Qed.

Lemma CacheLines_blocks_on_silent_fetch_witness :
  exists w',
    CacheLines "/cache" 1850 true
      [mismatch_attempt; silent_attempt; good_attempt "abc"] world_1850
    = (Blocked, [good_attempt "abc"], w')
    /\ fs w' = fs world_1850.
Proof.
  apply (CacheLines_blocks_on_silent_fetch "/cache" 1850 true
           [mismatch_attempt] silent_attempt [Progress 10; Progress 20]
           [good_attempt "abc"] world_1850); reflexivity.
Defined.

Lemma WriteFile_frame fs0 p data q :
  q <> Go.Clean p -> (WriteFile fs0 p data).1 !! q = fs0 !! q.
Proof.
  intros Hq. unfold WriteFile.
  destruct (is_dir fs0 (Go.Clean p)); [reflexivity|].
  destruct (is_dir fs0 (Go.Dir (Go.Clean p))); [|reflexivity].
  cbn [fst]. by rewrite lookup_insert_ne.
Qed.

(** X4. [CacheLines] touches the file system only at the path it returns:
    every other path holds after the call what it held before, and a call
    that does not return has written nothing. *)
Theorem CacheLines_writes_only_returned_path
  cachePath year printProgress script : forall w,
  match CacheLines cachePath year printProgress script w with
  | (Returned filePath, _, w') =>
      forall q, q <> Go.Clean filePath -> fs w' !! q = fs w !! q
  | (_, _, w') => fs w' = fs w
  end.
Proof.
  induction script as [|a script IH]; intros w; cbn [CacheLines];
    [reflexivity|].
  destruct (isFrak a); cbn [negb]; [|apply IH].
  destruct (fetched a) as [err|events].
  - specialize (IH (logf ("Error while getting OCR for "
                          ++ Identifier (entry a) ++ ": " ++ err) w)).
    exact IH.
  - match goal with |- context [await ?pp ?evs ?w0] =>
      destruct (await_received pp evs w0) as (_ & Hfs & _);
      destruct (await pp evs w0) as [recv w1] eqn:Eawait
    end.
    cbn [snd] in Hfs.
    assert (Hfs1 : fs w1 = fs w) by (rewrite Hfs; by destruct printProgress).
    destruct recv as [lines|err|].
    + intros q Hq.
      assert (forall w2 : World,
                fs (if printProgress then bar_ops [BarFinish] w2 else w2)
                = fs w2) as -> by (intros; by destruct printProgress).
      cbn [set_fs fs]. rewrite WriteFile_frame by done. by rewrite Hfs1.
    + specialize (IH (logf ("Error while getting lines for "
                            ++ Identifier (entry a) ++ ": " ++ err) w1)).
      destruct (CacheLines cachePath year printProgress script _)
        as [[[p| |] rest] w2]; cbn [logf fs] in IH.
      * intros q Hq. rewrite (IH q Hq). by rewrite Hfs1.
      * congruence.
      * congruence.
    + exact Hfs1.
Qed.

Lemma await_quiet events : forall w,
  bar (await false events w).2 = bar w
  /\ stdout (await false events w).2 = stdout w.
Proof.
  induction events as [|[v|err|lines] events IH]; intros w; cbn [await];
    [done | apply IH | done | done].
Qed.

(** X5. Called with [printProgress] false, [CacheLines] creates and moves no
    progress bar, and it prints nothing on standard output, whatever the
    script. *)
Theorem CacheLines_quiet_without_printProgress cachePath year script :
  forall w,
  let w' := (CacheLines cachePath year false script w).2 in
  bar w' = bar w /\ stdout w' = stdout w.
Proof.
  induction script as [|a script IH]; intros w; cbn [CacheLines];
    [done|].
  destruct (isFrak a); cbn [negb]; [|apply IH].
  destruct (fetched a) as [err|events].
  - exact (IH (logf ("Error while getting OCR for "
                     ++ Identifier (entry a) ++ ": " ++ err) w)).
  - match goal with |- context [await false ?evs ?w0] =>
      destruct (await_quiet evs w0) as (Hbar & Hout);
      destruct (await false evs w0) as [recv w1] eqn:Eawait
    end.
    cbn [snd] in *.
    destruct recv as [lines|err|]; [done | | done].
    specialize (IH (logf ("Error while getting lines for "
                          ++ Identifier (entry a) ++ ": " ++ err) w1)).
    cbn zeta in *. destruct IH as [-> ->]. done.
Qed.

Lemma WriteFile_again fs0 p data data' :
  (WriteFile fs0 p data).2 = None ->
  (WriteFile (WriteFile fs0 p data).1 p data').2 = None
  /\ (WriteFile (WriteFile fs0 p data).1 p data').1
     = <[Go.Clean p := File data']> fs0.
Proof.
  unfold WriteFile.
  destruct (is_dir fs0 (Go.Clean p)) eqn:Eself; [discriminate|].
  destruct (is_dir fs0 (Go.Dir (Go.Clean p))) eqn:Eparent; [|discriminate].
  intros _. cbn [fst snd].
  assert (Hne : Go.Dir (Go.Clean p) <> Go.Clean p) by congruence.
  assert (Hself : is_dir (<[Go.Clean p := File data]> fs0) (Go.Clean p) = false).
  { unfold is_dir in *. rewrite lookup_insert_eq.
    destruct (String.eqb (Go.Clean p) "/" || String.eqb (Go.Clean p) ".");
      [discriminate | reflexivity]. }
  assert (Hparent : is_dir (<[Go.Clean p := File data]> fs0)
                           (Go.Dir (Go.Clean p)) = true).
  { unfold is_dir in *. by rewrite lookup_insert_ne. }
  rewrite Hself, Hparent. cbn [fst snd]. split; [reflexivity|].
  apply insert_insert_eq.
Qed.

(** X6. Two fills that sample the same identifier return the same path, and
    the second overwrites the file of the first: when the first write went
    through, the file holds the lines of the second fetch afterwards, and no
    other path differs from what it held before the two fills. *)
Theorem CacheLines_same_identifier_overwrites
  cachePath year printProgress a1 a2 lines1 lines2 rest1 rest2 w :
  delivers a1 lines1 ->
  delivers a2 lines2 ->
  Identifier (entry a1) = Identifier (entry a2) ->
  exists filePath w1 w2,
    CacheLines cachePath year printProgress (a1 :: rest1) w
    = (Returned filePath, rest1, w1)
    /\ CacheLines cachePath year printProgress (a2 :: rest2) w1
       = (Returned filePath, rest2, w2)
    /\ (forall q, q <> Go.Clean filePath -> fs w2 !! q = fs w !! q)
    /\ ((WriteFile (fs w) filePath (LinesJSON lines1)).2 = None ->
        ReadFile (fs w2) filePath = Some (LinesJSON lines2)).
Proof.
  intros H1 H2 Hsame.
  destruct (CacheLines_delivers_step cachePath year printProgress a1 lines1
              rest1 w H1) as (w1 & Heq1 & Hfs1).
  destruct (CacheLines_delivers_step cachePath year printProgress a2 lines2
              rest2 w1 H2) as (w2 & Heq2 & Hfs2).
  rewrite <- Hsame in Heq2, Hfs2.
  eexists _, w1, w2. split; [exact Heq1|]. split; [exact Heq2|]. split.
  - intros q Hq. rewrite Hfs2, WriteFile_frame by done.
    rewrite Hfs1. by apply WriteFile_frame.
  - intros Hok. rewrite Hfs2, Hfs1.
    destruct (WriteFile_again _ _ _ (LinesJSON lines2) Hok) as [Hok2 _].
    by apply WriteFile_ReadFile.
Qed.

Lemma CacheLines_same_identifier_overwrites_witness :
  exists w1 w2,
    CacheLines "/cache" 1850 false [good_attempt "abc"] world_1850
    = (Returned "/cache/1850/abc.json", [], w1)
    /\ CacheLines "/cache" 1850 false
         [mkAttempt (mkEntry "abc" 1850) true (Fetching [LinesReady []])] w1
       = (Returned "/cache/1850/abc.json", [], w2)
    /\ ReadFile (fs w2) "/cache/1850/abc.json" = Some (LinesJSON [])
    /\ cached_files (fs w2) "/cache/1850" = ["abc.json"].
Proof.
  destruct (CacheLines_same_identifier_overwrites "/cache" 1850 false
              (good_attempt "abc")
              (mkAttempt (mkEntry "abc" 1850) true (Fetching [LinesReady []]))
              sample_lines [] [] [] world_1850)
    as (p & w1 & w2 & Heq1 & Heq2 & _ & Hread).
  - split; [reflexivity|]. eexists. split; reflexivity.
  - split; [reflexivity|]. eexists. split; reflexivity.
  - reflexivity.
  - assert (p = "/cache/1850/abc.json") as -> by (vm_compute in Heq1; congruence).
    exists w1, w2. split; [exact Heq1|]. split; [exact Heq2|].
    split; [apply Hread; reflexivity|].
    vm_compute in Heq1. injection Heq1 as <-.
    vm_compute in Heq2. injection Heq2 as <-.
    reflexivity.
Defined.

(** ** [cacheWatcher] *)

(** X7. Whenever [cacheWatcher] returns, it returns either an error, and
    then the directory could not be read, nothing was sampled and nothing
    changed, or no error and a map of channels that is empty: no channel is
    ever put into the map, whatever was filled. *)
Theorem cacheWatcher_returns_no_channel basePath script w chans err rest w' :
  cacheWatcher basePath script w = (Returned (chans, err), rest, w') ->
  (chans = Some ∅ /\ err = None /\ is_Some (ReadDir (fs w) basePath))
  \/ (chans = None /\ is_Some err /\ ReadDir (fs w) basePath = None
      /\ rest = script /\ w' = w).
Proof.
  unfold cacheWatcher. destruct (ReadDir (fs w) basePath) as [yearDirs|].
  - destruct (watch_dirs basePath yearDirs ∅ script w) as [[[cf| |] s1] w1];
      intros [= <- <- <- <-] || discriminate. left. eauto.
  - intros [= <- <- <- <-]. right. eauto 10.
Qed.

Lemma cacheWatcher_returns_no_channel_witness :
  let script :=
    [good_attempt "x1"; good_attempt "x2"; good_attempt "x3";
     good_attempt "x4"] in
  let run := cacheWatcher "/cache" script world_1850 in
  run.1.1 = Returned (Some ∅, None)
  /\ run.1.2 = [good_attempt "x4"]
  /\ is_Some (ReadDir (fs world_1850) "/cache").
Proof.
  intros script run.
  assert (Hrun : cacheWatcher "/cache" script world_1850
                 = (Returned (Some ∅, None), [good_attempt "x4"], run.2))
    by reflexivity.
  split; [reflexivity|]. split; [reflexivity|].
  destruct (cacheWatcher_returns_no_channel _ _ _ _ _ _ _ Hrun)
    as [(_ & _ & Hdir)|(Hnone & _)]; [exact Hdir | discriminate].
Defined.

Lemma fill_up_tops_up fuel basePath year :
  forall cacheFiles script w cacheFiles' rest w',
  (3 <= fuel + length (cacheFiles !!! year))%nat ->
  fill_up fuel basePath year cacheFiles script w
  = (Returned cacheFiles', rest, w') ->
  length (cacheFiles' !!! year) = Nat.max 3 (length (cacheFiles !!! year))
  /\ (exists added, cacheFiles' !!! year = (cacheFiles !!! year ++ added)%list)
  /\ (forall y, y <> year -> cacheFiles' !! y = cacheFiles !! y).
Proof.
  induction fuel as [|fuel IH]; intros cf script w cf' rest w' Hfuel Hrun;
    cbn [fill_up] in Hrun.
  - inversion Hrun; subst. split; [lia|]. split; [|done].
    exists []. by rewrite app_nil_r.
  - destruct (Nat.ltb_spec (length (cf !!! year)) 3) as [Hlt|Hge].
    + destruct (CacheLines basePath year true script w) as [[[p| |] s1] w1];
        try discriminate.
      apply IH in Hrun as (Hlen & [added Hadded] & Hother).
      * rewrite lookup_total_insert_eq, length_app in Hlen.
        cbn [length] in Hlen.
        rewrite lookup_total_insert_eq in Hadded.
        split; [lia|]. split.
        -- exists (p :: added). by rewrite Hadded, <- app_assoc.
        -- intros y Hy. rewrite Hother by done. by rewrite lookup_insert_ne.
      * rewrite lookup_total_insert_eq, length_app. cbn [length]. lia.
    + inversion Hrun; subst. split; [lia|]. split; [|done].
      exists []. by rewrite app_nil_r.
Qed.

(** X8. When the fill loop of a year is left, the year's list has been topped
    up to exactly three entries (or was longer and is as it was): paths were
    only appended to it, and the lists of the other years are untouched. *)
Theorem fill_up_tops_up_to_three
  basePath year cacheFiles script w cacheFiles' rest w' :
  fill_up 3 basePath year cacheFiles script w
  = (Returned cacheFiles', rest, w') ->
  length (cacheFiles' !!! year) = Nat.max 3 (length (cacheFiles !!! year))
  /\ (exists added, cacheFiles' !!! year = (cacheFiles !!! year ++ added)%list)
  /\ (forall y, y <> year -> cacheFiles' !! y = cacheFiles !! y).
Proof. apply fill_up_tops_up. lia. Qed.

Lemma fill_up_tops_up_to_three_witness :
  let cacheFiles : gmap Z (list string) :=
    {[ 1850 := ["/cache/1850/a.json"]; 1860 := [] ]} in
  let cacheFiles' :=
    (fill_up 3 "/cache" 1850 cacheFiles
       [good_attempt "x1"; mismatch_attempt; good_attempt "x2";
        good_attempt "x3"] world_1850).1.1 in
  match cacheFiles' with
  | Returned cacheFiles' =>
      length (cacheFiles' !!! 1850) = 3%nat
      /\ cacheFiles' !! 1860 = Some []
  | _ => False
  end.
Proof.
  intros cacheFiles.
  destruct (fill_up 3 "/cache" 1850 cacheFiles
              [good_attempt "x1"; mismatch_attempt; good_attempt "x2";
               good_attempt "x3"] world_1850) as [[o rest] w'] eqn:Erun.
  assert (exists cf', o = Returned cf') as [cf' ->].
  { vm_compute in Erun. injection Erun as <- _ _. eauto. }
  destruct (fill_up_tops_up_to_three _ _ _ _ _ _ _ _ Erun)
    as (Hlen & _ & Hother).
  cbn [fst]. split; [exact Hlen|].
  rewrite Hother by done. reflexivity.
Defined.

(** X9. Entries of the cache root that are no directories (the snapshot
    [identifiers.json] that [InitCache] keeps there, for one) take no part
    in the watcher's loop: the run over a listing is the run over its
    directories. *)
Theorem watch_dirs_ignores_files basePath yearDirs :
  forall cacheFiles script w,
  watch_dirs basePath yearDirs cacheFiles script w
  = watch_dirs basePath (List.filter IsDir yearDirs) cacheFiles script w.
Proof.
  induction yearDirs as [|yearDir yearDirs IH]; intros cf script w;
    [reflexivity|].
  cbn [List.filter]. destruct (IsDir yearDir) eqn:Edir.
  - cbn [watch_dirs]. rewrite Edir. cbn [negb].
    destruct (fill_up 3 basePath _ _ script w) as [[[cf1| |] s1] w1];
      [apply IH | reflexivity | reflexivity].
  - cbn [watch_dirs]. rewrite Edir. cbn [negb]. apply IH.
Qed.

Lemma play_cons round rounds rest :
  (play (round :: rounds) ++ rest)%list
  = (round.1 ++ round.2 :: (play rounds ++ rest))%list.
Proof.
  unfold play. cbn [flat_map]. rewrite <- !app_assoc. reflexivity.
Qed.

(** One good round makes one call of [CacheLines] return the path made for
    the identifier that delivered. *)
Lemma CacheLines_round cachePath year printProgress round script w :
  good_round round ->
  exists w',
    CacheLines cachePath year printProgress
      (round.1 ++ round.2 :: script)%list w
    = (Returned (fill_path cachePath year round.2), script, w').
Proof.
  intros [Hbad [lines Hgood]].
  destruct (CacheLines_failed_prefix cachePath year printProgress round.1
              (round.2 :: script) w Hbad) as (w1 & -> & _).
  destruct (CacheLines_delivers_step cachePath year printProgress round.2
              lines script w1 Hgood) as (w2 & -> & _).
  by exists w2.
Qed.

Lemma fill_up_rounds_fuel basePath year rounds : forall fuel cacheFiles rest w,
  (length rounds <= fuel)%nat ->
  (length (cacheFiles !!! year) + length rounds = 3)%nat ->
  Forall good_round rounds ->
  exists cacheFiles' w',
    fill_up fuel basePath year cacheFiles (play rounds ++ rest)%list w
    = (Returned cacheFiles', rest, w')
    /\ cacheFiles' !!! year
       = (cacheFiles !!! year
          ++ map (fun round => fill_path basePath year round.2) rounds)%list.
Proof.
  induction rounds as [|round rounds IH]; intros fuel cf rest w Hfuel Hlen Hgood.
  - cbn [length] in Hlen. exists cf, w. rewrite fill_up_stocked by lia.
    cbn. by rewrite app_nil_r.
  - cbn [length] in *. destruct fuel as [|fuel]; [lia|].
    inversion Hgood as [|? ? Hround Hrest]; subst.
    cbn [fill_up].
    destruct (Nat.ltb_spec (length (cf !!! year)) 3) as [_|]; [|lia].
    rewrite play_cons.
    destruct (CacheLines_round basePath year true round
                (play rounds ++ rest)%list w Hround) as (w1 & ->).
    destruct (IH fuel
                (<[year := (cf !!! year
                            ++ [fill_path basePath year round.2])%list]> cf)
                rest w1) as (cf' & w' & Hrun & Hlist).
    + lia.
    + rewrite lookup_total_insert_eq, length_app. cbn [length]. lia.
    + exact Hrest.
    + exists cf', w'. split; [exact Hrun|].
      rewrite Hlist, lookup_total_insert_eq, <- app_assoc. reflexivity.
Qed.

(** X10. The fill loop makes exactly as many fills as the year's list is
    short of three: given that many rounds, each a run of failed attempts
    and then a delivering one, it uses them up, leaves the rest of the
    script, and appends the returned paths in order. *)
Theorem fill_up_uses_missing_rounds basePath year rounds cacheFiles rest w :
  (length (cacheFiles !!! year) + length rounds = 3)%nat ->
  Forall good_round rounds ->
  exists cacheFiles' w',
    fill_up 3 basePath year cacheFiles (play rounds ++ rest)%list w
    = (Returned cacheFiles', rest, w')
    /\ cacheFiles' !!! year
       = (cacheFiles !!! year
          ++ map (fun round => fill_path basePath year round.2) rounds)%list.
Proof. intros Hlen Hgood. apply fill_up_rounds_fuel; [lia | done | done]. Qed.

Lemma good_round_sample bad ident :
  forallb failed bad = true -> good_round (bad, good_attempt ident).
Proof.
  intros Hbad. split; [exact Hbad|]. exists sample_lines.
  split; [reflexivity|]. eexists. split; reflexivity.
Qed.

Lemma fill_up_uses_missing_rounds_witness :
  exists cacheFiles' w',
    fill_up 3 "/cache" 1850 {[ 1850 := [""] ]}
      [mismatch_attempt; good_attempt "x1"; good_attempt "x2";
       good_attempt "x3"] world_1850
    = (Returned cacheFiles', [good_attempt "x3"], w')
    /\ cacheFiles' !!! 1850
       = [""; "/cache/1850/x1.json"; "/cache/1850/x2.json"].
Proof.
  destruct (fill_up_uses_missing_rounds "/cache" 1850
              [([mismatch_attempt], good_attempt "x1"); ([], good_attempt "x2")]
              {[ 1850 := [""] ]} [good_attempt "x3"] world_1850)
    as (cacheFiles' & w' & Hrun & Hlist).
  - reflexivity.
  - repeat constructor; by apply good_round_sample.
  - exists cacheFiles', w'. split; [exact Hrun|].
    rewrite Hlist. reflexivity.
Defined.

(** ** Year directories and their names *)

Lemma digits_of_uint_acc (d : Decimal.uint) : forall acc : positive,
  Go.digits (NilEmpty.string_of_uint d) (Z.pos acc)
  = Some (Z.pos (Pos.of_uint_acc d acc)).
Proof.
  induction d as [|d IH|d IH|d IH|d IH|d IH|d IH|d IH|d IH|d IH|d IH];
    intros acc; cbn [NilEmpty.string_of_uint Go.digits Pos.of_uint_acc];
    [reflexivity|..];
    match goal with
    | |- context [Go.digit_of ?c] =>
        let v := eval vm_compute in (Go.digit_of c) in
        change (Go.digit_of c) with v; cbv iota
    end;
    rewrite <- IH; f_equal; lia.
Qed.

Lemma digits_string_of_uint (d : Decimal.uint) :
  Go.digits (NilEmpty.string_of_uint d) 0 = Some (Z.of_N (Pos.of_uint d)).
Proof.
  induction d as [|d IH|d IH|d IH|d IH|d IH|d IH|d IH|d IH|d IH|d IH];
    cbn [NilEmpty.string_of_uint Go.digits Pos.of_uint];
    [reflexivity|..];
    match goal with
    | |- context [Go.digit_of ?c] =>
        let v := eval vm_compute in (Go.digit_of c) in
        change (Go.digit_of c) with v; cbv iota
    end;
    [exact IH | apply digits_of_uint_acc ..].
Qed.

Lemma digits_to_uint (p : positive) :
  Go.digits (NilEmpty.string_of_uint (Pos.to_uint p)) 0 = Some (Z.pos p).
Proof.
  rewrite digits_string_of_uint, DecimalPos.Unsigned.of_to. reflexivity.
Qed.

(** The decimal of a positive number starts with a digit. *)
Lemma string_of_to_uint_head (p : positive) :
  exists c s,
    NilEmpty.string_of_uint (Pos.to_uint p) = String c s
    /\ c <> "-"%char /\ c <> "+"%char.
Proof.
  pose proof (DecimalPos.Unsigned.to_uint_nonnil p) as Hnil.
  destruct (Pos.to_uint p); [done|..];
    cbn [NilEmpty.string_of_uint]; eexists _, _;
    (split; [reflexivity | split; discriminate]).
Qed.

Lemma Atoi_unsigned c s :
  c <> "-"%char -> c <> "+"%char ->
  Go.Atoi (String c s) = atoi_value false (String c s).
Proof.
  intros Hminus Hplus.
  destruct c as [b0 b1 b2 b3 b4 b5 b6 b7].
  destruct b0, b1, b2, b3, b4, b5, b6, b7; try reflexivity; congruence.
Qed.

Lemma Atoi_negative c s :
  Go.Atoi (String "-"%char (String c s)) = atoi_value true (String c s).
Proof. reflexivity. Qed.

Lemma atoi_value_in_range (neg : bool) body u :
  Go.digits body 0 = Some u ->
  Int64.in_range (if neg then - u else u) ->
  atoi_value neg body = (if neg then - u else u, None).
Proof.
  unfold atoi_value, Int64.in_range. intros -> Hrange. cbv zeta.
  destruct (Z.ltb_spec (if neg then - u else u) Int64.min_int); [lia|].
  destruct (Z.ltb_spec Int64.max_int (if neg then - u else u)); [lia|].
  reflexivity.
Qed.

(** [strconv.Atoi] reads back what [strconv.Itoa] wrote. *)
Lemma Atoi_Itoa (y : Z) :
  Int64.in_range y -> Go.Atoi (Go.Itoa y) = (y, None).
Proof.
  intros Hy. unfold Go.Itoa. destruct y as [|p|p]; [reflexivity| |].
  - cbn [Z.to_int NilZero.string_of_int]. unfold NilZero.string_of_uint.
    pose proof (DecimalPos.Unsigned.to_uint_nonnil p) as Hnil.
    pose proof (digits_to_uint p) as Hdigits.
    destruct (string_of_to_uint_head p) as (c & s & Hs & Hminus & Hplus).
    assert (Hstr : match Pos.to_uint p with
                   | Decimal.Nil => "0"
                   | _ => NilEmpty.string_of_uint (Pos.to_uint p)
                   end = String c s)
      by (destruct (Pos.to_uint p); [done | exact Hs ..]).
    rewrite Hstr, Atoi_unsigned by done. rewrite Hs in Hdigits.
    by rewrite (atoi_value_in_range false _ _ Hdigits).
  - cbn [Z.to_int NilZero.string_of_int]. unfold NilZero.string_of_uint.
    pose proof (DecimalPos.Unsigned.to_uint_nonnil p) as Hnil.
    pose proof (digits_to_uint p) as Hdigits.
    destruct (string_of_to_uint_head p) as (c & s & Hs & Hminus & Hplus).
    assert (Hstr : match Pos.to_uint p with
                   | Decimal.Nil => "0"
                   | _ => NilEmpty.string_of_uint (Pos.to_uint p)
                   end = String c s)
      by (destruct (Pos.to_uint p); [done | exact Hs ..]).
    rewrite Hstr, Atoi_negative. rewrite Hs in Hdigits.
    by rewrite (atoi_value_in_range true _ _ Hdigits).
Qed.

Lemma scan_content year yearPath dirContent : forall cacheFiles,
  fold_left (scan_entry year yearPath) dirContent cacheFiles !!! year
  = (cacheFiles !!! year
     ++ map (fun f => Go.Join yearPath (Name f)) (json_entries dirContent))%list.
Proof.
  unfold json_entries.
  induction dirContent as [|f dirContent IH]; intros cf;
    cbn [fold_left List.filter].
  - cbn. by rewrite app_nil_r.
  - rewrite IH. unfold scan_entry.
    destruct (IsDir f); cbn [orb negb andb]; [reflexivity|].
    destruct (String.eqb (Go.Ext (Name f)) ".json"); cbn [negb];
      [|reflexivity].
    rewrite lookup_total_insert_eq, <- app_assoc. reflexivity.
Qed.

(** X11. A year directory whose name is the decimal of a year is filled in
    place.  [strconv.Atoi] reads the year back from the name, so the fills
    go into the directory that was scanned; the year's list is then one
    empty string for every entry of the directory, the paths of its cached
    files, and the paths of the fills, as many as the list was short of
    three. *)
Theorem watch_dirs_fills_year_in_place
  basePath (y : Z) yearDir yearDirs rounds cacheFiles rest w :
  IsDir yearDir = true ->
  Name yearDir = Go.Itoa y ->
  Int64.in_range y ->
  let yearPath := Go.Join basePath (Name yearDir) in
  let dirContent := default [] (ReadDir (fs w) yearPath) in
  (length dirContent + length (json_entries dirContent) + length rounds
   = 3)%nat ->
  Forall good_round rounds ->
  exists cacheFiles' w',
    watch_dirs basePath (yearDir :: yearDirs) cacheFiles
               (play rounds ++ rest)%list w
    = watch_dirs basePath yearDirs cacheFiles' rest w'
    /\ cacheFiles' !!! y
       = (replicate (length dirContent) ""
          ++ map (fun f => Go.Join yearPath (Name f)) (json_entries dirContent)
          ++ map (fun round =>
                    Go.Join yearPath (Identifier (entry round.2) ++ ".json"))
                 rounds)%list.
Proof.
  intros Hdir Hname Hy yearPath dirContent Hlen Hgood.
  cbn [watch_dirs]. rewrite Hdir. cbn [negb].
  fold yearPath. fold dirContent.
  assert (Hyear : (Go.Atoi (Name yearDir)).1 = y)
    by (rewrite Hname, Atoi_Itoa by done; reflexivity).
  rewrite Hyear.
  set (scanned := fold_left (scan_entry y yearPath) dirContent
                    (<[y := replicate (length dirContent) ""]> cacheFiles)).
  assert (Hscanned : scanned !!! y
            = (replicate (length dirContent) ""
               ++ map (fun f => Go.Join yearPath (Name f))
                      (json_entries dirContent))%list).
  { subst scanned. by rewrite scan_content, lookup_total_insert_eq. }
  destruct (fill_up_rounds_fuel basePath y rounds 3 scanned rest w)
    as (cf' & w' & -> & Hlist).
  - lia.
  - rewrite Hscanned, length_app, length_replicate, length_map. lia.
  - exact Hgood.
  - exists cf', w'. split; [reflexivity|].
    rewrite Hlist, Hscanned, <- app_assoc. do 2 f_equal.
    apply map_ext. intros round. unfold fill_path, yearPath.
    by rewrite Hname.
Qed.

Lemma watch_dirs_fills_year_in_place_witness :
  exists cacheFiles' w',
    watch_dirs "/cache" [mkFileInfo "1850" true] ∅
      [mismatch_attempt; good_attempt "x1"; good_attempt "x2";
       fetch_error_attempt; good_attempt "x3"; good_attempt "x4"]
      world_with_snapshot
    = watch_dirs "/cache" [] cacheFiles' [good_attempt "x4"] w'
    /\ cacheFiles' !!! 1850
       = ["/cache/1850/x1.json"; "/cache/1850/x2.json"; "/cache/1850/x3.json"].
Proof.
  destruct (watch_dirs_fills_year_in_place "/cache" 1850
              (mkFileInfo "1850" true) []
              [([mismatch_attempt], good_attempt "x1");
               ([], good_attempt "x2");
               ([fetch_error_attempt], good_attempt "x3")]
              ∅ [good_attempt "x4"] world_with_snapshot)
    as (cacheFiles' & w' & Hrun & Hlist).
  - reflexivity.
  - reflexivity.
  - unfold Int64.in_range, Int64.min_int, Int64.max_int. lia.
  - reflexivity.
  - repeat constructor; by apply good_round_sample.
  - exists cacheFiles', w'. split; [exact Hrun|].
    rewrite Hlist. reflexivity.
Defined.

(** ** [createReadme] *)

Lemma Int64_wrap_0 : Int64.wrap 0 = 0.
Proof. reflexivity. Qed.

Lemma Int64_add_wrap a b : Int64.add (Int64.wrap a) b = Int64.wrap (a + b).
Proof.
  unfold Int64.add, Int64.wrap. f_equal.
  replace ((a + 2 ^ 63) mod 2 ^ 64 - 2 ^ 63 + b + 2 ^ 63)
    with ((a + 2 ^ 63) mod 2 ^ 64 + b) by lia.
  rewrite Zplus_mod_idemp_l. f_equal. lia.
Qed.

Lemma lines_where_app select ms ms' :
  lines_where select (ms ++ ms')%list
  = lines_where select ms + lines_where select ms'.
Proof.
  unfold lines_where. induction ms as [|m ms IH]; simpl; lia.
Qed.

Lemma lines_where_nonneg select ms : 0 <= lines_where select ms.
Proof.
  unfold lines_where. induction ms as [|m ms IH]; simpl; [lia|].
  destruct (select m); lia.
Qed.

Lemma lines_where_le select ms :
  lines_where select ms <= lines_where (fun _ => true) ms.
Proof.
  unfold lines_where. induction ms as [|m ms IH]; simpl; [lia|].
  destruct (select m); lia.
Qed.

Lemma lines_where_perm select ms ms' :
  ms ≡ₚ ms' -> lines_where select ms = lines_where select ms'.
Proof.
  unfold lines_where.
  induction 1 as [|m ms ms' _ IH|m m' ms|ms ms' ms'' _ IH1 _ IH2];
    simpl; lia.
Qed.

Lemma insert_path_perm f l : insert_path f l ≡ₚ f :: l.
Proof.
  induction l as [|g l IH]; cbn [insert_path]; [done|].
  destruct (String.leb f.1 g.1); [done|].
  fold (insert_path f l). rewrite IH. apply Permutation_swap.
Qed.

Lemma sort_paths_perm l : sort_paths l ≡ₚ l.
Proof.
  induction l as [|f l IH]; cbn [sort_paths fold_right]; [done|].
  fold (sort_paths l). rewrite insert_path_perm. by rewrite IH.
Qed.

Lemma parsed_sort_paths l : parsed (sort_paths l) ≡ₚ parsed l.
Proof. unfold parsed. by rewrite sort_paths_perm. Qed.

Lemma count_add_lookup k n (m : gmap Z Z) (ms : list Meta) (meta : Meta)
  (key : Meta -> Z) :
  (forall j, default 0 (m !! j)
             = Int64.wrap (lines_where (fun x => key x =? j) ms)) ->
  key meta = k -> n = Z.of_nat (meta_lines meta) ->
  forall j, default 0 (count_add k n m !! j)
            = Int64.wrap (lines_where (fun x => key x =? j) (ms ++ [meta])%list).
Proof.
  intros Hm Hk Hn j. unfold count_add. rewrite lines_where_app.
  unfold lines_where at 2. cbn [foldr]. rewrite Hk.
  destruct (Z.eqb_spec k j) as [->|Hne].
  - rewrite lookup_insert_eq. cbn [default from_option id].
    rewrite Hm, Int64_add_wrap. f_equal. lia.
  - rewrite lookup_insert_ne by done. rewrite Hm. f_equal. lia.
Qed.

Lemma count_add_is_Some k n (m : gmap Z Z) (ms : list Meta) (meta : Meta)
  (key : Meta -> Z) :
  (forall j, is_Some (m !! j) <-> exists x, x ∈ ms /\ key x = j) ->
  key meta = k ->
  forall j, is_Some (count_add k n m !! j)
            <-> exists x, x ∈ (ms ++ [meta])%list /\ key x = j.
Proof.
  intros Hm Hk j. unfold count_add. rewrite lookup_insert_is_Some', Hm.
  split.
  - intros [<-|(x & Hx & Hj)].
    + exists meta. split; [|done].
      apply elem_of_app. right. by apply list_elem_of_singleton.
    + exists x. split; [|done]. apply elem_of_app. by left.
  - intros (x & Hx & Hj). apply elem_of_app in Hx as [Hx|Hx].
    + right. eauto.
    + left. apply list_elem_of_singleton in Hx. congruence.
Qed.

Lemma parsed_snoc files file :
  parsed (files ++ [file])%list
  = (parsed files
     ++ match file.2 with MetaParsed m => [m] | _ => [] end)%list.
Proof.
  unfold parsed. rewrite omap_app. cbn. by destruct file.2.
Qed.

Lemma unreadable_snoc files file :
  unreadable (files ++ [file])%list
  = (unreadable files
     + match file.2 with MetaParsed _ => 0 | _ => 1 end)%nat.
Proof.
  unfold unreadable. rewrite List.filter_app, length_app. cbn.
  by destruct file.2.
Qed.

(** The loop of [createReadme] keeps [gathered]. *)
Lemma readme_step_gathered files w file st :
  gathered files w st ->
  gathered (files ++ [file])%list w (readme_step st file).
Proof.
  destruct st as [stats w1]. unfold gathered. cbn [fst snd].
  intros (Htotal & Hyear & Hdecade & Hyears & Hdecades & Hrows & Hlog & Hfs).
  rewrite parsed_snoc, unreadable_snoc. unfold readme_step.
  destruct file.2 as [err|err|meta]; cbn [fst snd].
  - rewrite !app_nil_r. cbn [logf log fs]. rewrite length_app. cbn [length].
    repeat split; try done; try apply Hyears; try apply Hdecades; lia.
  - rewrite !app_nil_r. cbn [logf log fs]. rewrite length_app. cbn [length].
    repeat split; try done; try apply Hyears; try apply Hdecades; lia.
  - cbn [numLinesTotal yearCount decadeCount metaRows].
    split; [|split; [|split; [|split; [|split; [|split; [|split]]]]]].
    + rewrite Htotal, Int64_add_wrap, lines_where_app. f_equal.
      unfold lines_where at 3. cbn. lia.
    + by apply (count_add_lookup _ _ _ _ meta year_of).
    + by apply (count_add_lookup _ _ _ _ meta
                  (fun m => decade_of (year_of m))).
    + by apply (count_add_is_Some _ _ _ _ meta year_of).
    + by apply (count_add_is_Some _ _ _ _ meta
                  (fun m => decade_of (year_of m))).
    + rewrite Hrows, map_app. reflexivity.
    + lia.
    + exact Hfs.
Qed.

Lemma readme_fold_gathered files w :
  gathered files w (fold_left readme_step files (mkReadmeStats 0 ∅ ∅ [], w)).
Proof.
  induction files as [|file files IH] using rev_ind.
  - unfold gathered. cbn.
    repeat split; try done; try (intros [? [Hin _]]; by inversion Hin);
      try (intros [x Hx]; by rewrite lookup_empty in Hx); lia.
  - rewrite fold_left_app. cbn [fold_left]. by apply readme_step_gathered.
Qed.

Lemma readme_stats_gathered metaFiles w :
  gathered (sort_paths metaFiles) w (readme_stats metaFiles w).
Proof. apply readme_fold_gathered. Qed.

Lemma wrap_lines_where select ms :
  lines_where (fun _ => true) ms <= Int64.max_int ->
  Int64.wrap (lines_where select ms) = lines_where select ms.
Proof.
  intros Hmax. apply Int64_wrap_in_range.
  pose proof (lines_where_nonneg select ms).
  pose proof (lines_where_le select ms).
  unfold Int64.in_range, Int64.min_int. lia.
Qed.

(** X12. As long as the lines of all works together fit an [int], the loop
    of [createReadme] ends with the total of the lines of the works that
    could be read, with, for every year, the lines of the works of that
    year, and with, for every decade, the lines of the works of that
    decade; the order in which [filepath.Glob] listed the files plays no
    part.  A work whose year is missing or no number is counted under year
    0. *)
Theorem readme_stats_counts (metaFiles : list (string * MetaFile)) (w : World) :
  lines_where (fun _ => true) (parsed metaFiles) <= Int64.max_int ->
  let stats := (readme_stats metaFiles w).1 in
  numLinesTotal stats = lines_where (fun _ => true) (parsed metaFiles)
  /\ (forall y,
        default 0 (yearCount stats !! y)
        = lines_where (fun m => year_of m =? y) (parsed metaFiles))
  /\ (forall d,
        default 0 (decadeCount stats !! d)
        = lines_where (fun m => decade_of (year_of m) =? d)
                      (parsed metaFiles)).
Proof.
  intros Hmax stats.
  destruct (readme_stats_gathered metaFiles w)
    as (Htotal & Hyear & Hdecade & _).
  pose proof (parsed_sort_paths metaFiles) as Hperm.
  fold stats in Htotal, Hyear, Hdecade.
  split; [|split].
  - rewrite Htotal, (lines_where_perm _ _ _ Hperm).
    by apply wrap_lines_where.
  - intros y. rewrite Hyear, (lines_where_perm _ _ _ Hperm).
    by apply wrap_lines_where.
  - intros d. rewrite Hdecade, (lines_where_perm _ _ _ Hperm).
    by apply wrap_lines_where.
Qed.

Lemma readme_stats_counts_witness :
  let stats := (readme_stats sample_meta_files (mkWorld ∅ [] [] [])).1 in
  numLinesTotal stats = 55
  /\ default 0 (yearCount stats !! 1873) = 12
  /\ default 0 (yearCount stats !! 0) = 5
  /\ default 0 (decadeCount stats !! 1870) = 20.
Proof.
  intros stats.
  destruct (readme_stats_counts sample_meta_files (mkWorld ∅ [] [] []))
    as (Htotal & Hyear & Hdecade).
  - vm_compute. discriminate.
  - fold stats in Htotal, Hyear, Hdecade.
    rewrite Htotal, !Hyear, Hdecade. repeat split.
Defined.

Lemma decade_of_bounds (y : Z) :
  decade_of y mod 10 = 0
  /\ Z.abs (decade_of y) <= Z.abs y < Z.abs (decade_of y) + 10
  /\ (0 <= y -> decade_of y <= y)
  /\ (y <= 0 -> y <= decade_of y).
Proof.
  unfold decade_of.
  pose proof (Z.quot_rem' y 10) as Hqr.
  split; [apply Z_mod_mult|].
  destruct (Z.le_gt_cases 0 y) as [Hy|Hy].
  - pose proof (Z.rem_bound_pos y 10 Hy ltac:(lia)) as Hr.
    revert Hqr Hr. generalize (Z.quot y 10) (Z.rem y 10). intros q r Hqr Hr.
    lia.
  - pose proof (Z.rem_bound_pos_neg y 10 ltac:(lia) ltac:(lia)) as Hr.
    revert Hqr Hr. generalize (Z.quot y 10) (Z.rem y 10). intros q r Hqr Hr.
    lia.
Qed.

(** X13. Every decade of the decade table is a multiple of ten that comes
    from the year of a work that was read, and lies at most nine from it on
    the side of zero (Go's division truncates, so the years -9 to 9 share
    decade 0); and every year of the year table has its decade in the decade
    table. *)
Theorem readme_stats_decades (metaFiles : list (string * MetaFile)) (w : World) :
  let stats := (readme_stats metaFiles w).1 in
  (forall d, is_Some (decadeCount stats !! d) ->
     d mod 10 = 0
     /\ exists y, is_Some (yearCount stats !! y)
                  /\ d = decade_of y
                  /\ Z.abs d <= Z.abs y < Z.abs d + 10)
  /\ (forall y, is_Some (yearCount stats !! y) ->
        is_Some (decadeCount stats !! decade_of y)).
Proof.
  intros stats.
  destruct (readme_stats_gathered metaFiles w)
    as (_ & _ & _ & Hyears & Hdecades & _).
  fold stats in Hyears, Hdecades. split.
  - intros d Hd. apply Hdecades in Hd as (m & Hm & <-).
    destruct (decade_of_bounds (year_of m)) as (Hmod & Habs & _).
    split; [exact Hmod|]. exists (year_of m).
    split; [apply Hyears; eauto|]. split; [reflexivity | exact Habs].
  - intros y Hy. apply Hyears in Hy as (m & Hm & <-).
    apply Hdecades. eauto.
Qed.

Lemma parsed_unreadable_length files :
  (length (parsed files) + unreadable files = length files)%nat.
Proof.
  unfold parsed, unreadable.
  induction files as [|file files IH]; [reflexivity|].
  cbn [omap list_omap List.filter length].
  destruct file.2; cbn [length]; lia.
Qed.

Lemma unreadable_sort_paths files :
  unreadable (sort_paths files) = unreadable files.
Proof.
  pose proof (parsed_unreadable_length files) as H1.
  pose proof (parsed_unreadable_length (sort_paths files)) as H2.
  pose proof (Permutation_length (parsed_sort_paths files)) as H3.
  pose proof (Permutation_length (sort_paths_perm files)) as H4.
  lia.
Qed.

(** X14. A metadata file that cannot be opened or parsed is logged once and
    left out of the table of works and of every count, yet it is counted in
    the number of works the README states: that number is the number of
    files found, the table has a row for each file that was read.  The
    file system is not touched. *)
Theorem createReadme_unreadable_files
  (metaFiles : list (string * MetaFile)) (w : World) :
  let run := createReadme metaFiles w in
  numWorks run.1 = Go.Itoa (Z.of_nat (length metaFiles))
  /\ worksTable run.1 = map work_row (parsed (sort_paths metaFiles))
  /\ (length (worksTable run.1) + unreadable metaFiles
      = length metaFiles)%nat
  /\ length (log run.2) = (length (log w) + unreadable metaFiles)%nat
  /\ fs run.2 = fs w.
Proof.
  intros run. subst run. unfold createReadme.
  destruct (readme_stats_gathered metaFiles w)
    as (_ & _ & _ & _ & _ & Hrows & Hlog & Hfs).
  destruct (readme_stats metaFiles w) as [stats w'].
  cbn [fst snd numWorks worksTable] in *.
  rewrite unreadable_sort_paths in Hlog.
  split; [reflexivity|]. split; [exact Hrows|]. split; [|done].
  rewrite Hrows, length_map, (Permutation_length (parsed_sort_paths metaFiles)).
  apply parsed_unreadable_length.
Qed.

(** X15. The table of years has one row for every year under which a work
    that was read is filed, in ascending order of the years and without
    repetition, each with the count of that year; the number of years the
    README states is the number of these rows. *)
Theorem createReadme_year_table
  (metaFiles : list (string * MetaFile)) (w : World) :
  let data := (createReadme metaFiles w).1 in
  let stats := (readme_stats metaFiles w).1 in
  exists years,
    yearTable data
    = map (fun y => [Go.Itoa y; Go.Itoa (default 0 (yearCount stats !! y))])
          years
    /\ StronglySorted Z.le years
    /\ NoDup years
    /\ (forall y, y ∈ years
                  <-> exists m, m ∈ parsed metaFiles /\ year_of m = y)
    /\ numYears data = Go.Itoa (Z.of_nat (length years)).
Proof.
  intros data stats. subst data stats. unfold createReadme.
  destruct (readme_stats_gathered metaFiles w)
    as (_ & _ & _ & Hyears & _).
  destruct (readme_stats metaFiles w) as [stats w'].
  cbn [fst snd yearTable numYears] in *.
  exists (sorted_keys (yearCount stats)). unfold count_rows, sorted_keys.
  split; [reflexivity|].
  split; [apply (StronglySorted_merge_sort Z.le)|].
  split; [rewrite merge_sort_Permutation; apply NoDup_elements|].
  split; [|reflexivity].
  intros y. rewrite merge_sort_Permutation, elem_of_elements, elem_of_dom.
  rewrite Hyears. by setoid_rewrite (parsed_sort_paths metaFiles).
Qed.

(** ** [Sha1Digest] and [MakeLineIdentifier] *)

(** The embedded SHA-1 on the test messages of the standard. *)
Example Sha1_test_vectors :
  hex (Sha1.Sum (Sha1.bytes_of_string "abc"))
  = "a9993e364706816aba3e25717850c26c9cd0d89d"
  /\ hex (Sha1.Sum (Sha1.bytes_of_string ""))
     = "da39a3ee5e6b4b0d3255bfef95601890afd80709"
  /\ hex (Sha1.Sum (Sha1.bytes_of_string
            "abcdbcdecdefdefgefghfghighijhijkijkljklmklmnlmnomnopnopq"))
     = "84983e441c3bd26ebaae4aa1f95129e5e54670f1".
Proof. vm_compute. repeat split. Qed.

Lemma hex_digit_is_hex (d : Z) :
  0 <= d < 16 -> is_hex_digit (hex_digit d) = true.
Proof.
  intros Hd. unfold hex_digit.
  assert (Hn : (Z.to_nat d < 16)%nat) by lia.
  revert Hn. generalize (Z.to_nat d). intros n Hn.
  do 16 (destruct n as [|n]; [reflexivity|]). lia.
Qed.

Lemma hex_byte_is_hex (x : Z) :
  is_hex_digit (hex_digit (x mod 256 / 16)) = true
  /\ is_hex_digit (hex_digit ((x mod 256) mod 16)) = true.
Proof.
  pose proof (Z.mod_pos_bound x 256 ltac:(lia)).
  split; apply hex_digit_is_hex.
  - split; [apply Z.div_pos; lia | apply Z.div_lt_upper_bound; lia].
  - apply Z.mod_pos_bound. lia.
Qed.

Lemma Sha1Digest_length (inp : string) :
  String.length (Sha1Digest inp) = 8%nat.
Proof.
  unfold Sha1Digest, Sha1.Sum.
  destruct (Sha1.state (Sha1.bytes_of_string inp)) as [[[[h0 h1] h2] h3] h4].
  reflexivity.
Qed.

(** X16. Whatever the input, [Sha1Digest] returns eight characters, all of
    them lower-case hexadecimal digits: the first four bytes of the SHA-1
    sum of the input. *)
Theorem Sha1Digest_shape (inp : string) :
  String.length (Sha1Digest inp) = 8%nat
  /\ forallb is_hex_digit (list_ascii_of_string (Sha1Digest inp)) = true
  /\ Sha1Digest inp
     = hex (firstn 4 (Sha1.Sum (Sha1.bytes_of_string inp))).
Proof.
  unfold Sha1Digest, Sha1.Sum.
  destruct (Sha1.state (Sha1.bytes_of_string inp)) as [[[[h0 h1] h2] h3] h4].
  unfold Sha1.word_bytes.
  cbn [app hex substring firstn String.length list_ascii_of_string forallb].
  split; [reflexivity|]. split; [|reflexivity].
  destruct (hex_byte_is_hex (Z.shiftr h0 24)) as [-> ->].
  destruct (hex_byte_is_hex (Z.shiftr h0 16)) as [-> ->].
  destruct (hex_byte_is_hex (Z.shiftr h0 8)) as [-> ->].
  destruct (hex_byte_is_hex h0) as [-> ->].
  reflexivity.
Qed.

Lemma string_length_app (s t : string) :
  String.length (s ++ t) = (String.length s + String.length t)%nat.
Proof. induction s as [|c s IH]; simpl; [reflexivity | by f_equal]. Qed.

Lemma substring_prefix (s t : string) :
  substring 0 (String.length s) (s ++ t) = s.
Proof.
  induction s as [|c s IH]; simpl.
  - by destruct t.
  - by f_equal.
Qed.

Lemma substring_suffix (s t : string) :
  substring (String.length s) (String.length t) (s ++ t) = t.
Proof.
  induction s as [|c s IH]; simpl; [|exact IH].
  induction t as [|c t IHt]; simpl; [reflexivity | by f_equal].
Qed.

Lemma MakeLineIdentifier_parts volumeID line :
  let id := MakeLineIdentifier volumeID line in
  String.length id = (String.length volumeID + 9)%nat
  /\ substring 0 (String.length id - 9) id = volumeID
  /\ substring (String.length id - 8) 8 id = Sha1Digest (ImageURL line).
Proof.
  intros id. subst id. unfold MakeLineIdentifier.
  pose proof (Sha1Digest_length (ImageURL line)) as Hlen.
  set (digest := Sha1Digest (ImageURL line)) in *.
  assert (Hid : String.length (volumeID ++ "_" ++ digest)
                = (String.length volumeID + 9)%nat).
  { rewrite !string_length_app, Hlen. reflexivity. }
  split; [exact Hid|]. rewrite Hid. split.
  - replace (String.length volumeID + 9 - 9)%nat with (String.length volumeID)
      by lia.
    apply substring_prefix.
  - replace (String.length volumeID + 9 - 8)%nat
      with (String.length (volumeID ++ "_"))
      by (rewrite string_length_app; simpl; lia).
    rewrite <- Hlen.
    replace (volumeID ++ "_" ++ digest) with ((volumeID ++ "_") ++ digest).
    + apply substring_suffix.
    + clear. induction volumeID as [|c v IH]; [reflexivity|].
      change (String c ((v ++ "_") ++ digest) = String c (v ++ "_" ++ digest)).
      by rewrite IH.
Qed.

(** X17. A line identifier is the volume id, an underscore and the eight
    digits of [Sha1Digest] of the line's image URL, and both can be read
    back from it: the volume id is the identifier without its last nine
    characters, the digest its last eight.  So two identifiers are equal
    only for the same volume id and the same digest, also when a volume id
    holds underscores; and the other fields of the line play no part. *)
Theorem MakeLineIdentifier_reads_back volumeID line :
  let id := MakeLineIdentifier volumeID line in
  String.length id = (String.length volumeID + 9)%nat
  /\ substring 0 (String.length id - 9) id = volumeID
  /\ substring (String.length id - 8) 8 id = Sha1Digest (ImageURL line)
  /\ (forall volumeID' line',
        MakeLineIdentifier volumeID' line' = id ->
        volumeID' = volumeID
        /\ Sha1Digest (ImageURL line') = Sha1Digest (ImageURL line))
  /\ (forall line',
        ImageURL line' = ImageURL line ->
        MakeLineIdentifier volumeID line' = id).
Proof.
  intros id.
  destruct (MakeLineIdentifier_parts volumeID line) as (Hlen & Hvol & Hdig).
  fold id in Hlen, Hvol, Hdig.
  split; [exact Hlen|]. split; [exact Hvol|]. split; [exact Hdig|]. split.
  - intros volumeID' line' Heq.
    destruct (MakeLineIdentifier_parts volumeID' line') as (_ & Hvol' & Hdig').
    cbv zeta in Hvol', Hdig'. rewrite Heq in Hvol', Hdig'.
    split; congruence.
  - intros line' Hurl. subst id. unfold MakeLineIdentifier. by rewrite Hurl.
Qed.

Lemma MakeLineIdentifier_reads_back_witness :
  MakeLineIdentifier "bsb10_1" (mkOCRLine "abc" "" "" "")
  = "bsb10_1_a9993e36"
  /\ forall volumeID' line',
       MakeLineIdentifier volumeID' line'
       = MakeLineIdentifier "bsb10_1" (mkOCRLine "abc" "" "" "") ->
       volumeID' = "bsb10_1".
Proof.
  split; [vm_compute; reflexivity|].
  intros volumeID' line' Heq.
  destruct (MakeLineIdentifier_reads_back "bsb10_1" (mkOCRLine "abc" "" "" ""))
    as (_ & _ & _ & Hinj & _).
  exact (proj1 (Hinj volumeID' line' Heq)).
Defined.

(** ** More on [CacheLines] and [createReadme] *)

(** X18. [CacheLines] returns only in one way: the attempts of the script
    it used up are a run of failed attempts and then one attempt that
    delivered lines, and the path returned is the one made from the year
    and from the identifier of that attempt. *)
Theorem CacheLines_returns_only_after_delivery
  cachePath year printProgress script : forall w filePath rest w',
  CacheLines cachePath year printProgress script w
  = (Returned filePath, rest, w') ->
  exists bad a lines,
    script = (bad ++ a :: rest)%list
    /\ forallb failed bad = true
    /\ delivers a lines
    /\ filePath = fill_path cachePath year a.
Proof.
  induction script as [|a script IH]; intros w filePath rest w' Hrun;
    cbn [CacheLines] in Hrun; [discriminate|].
  assert (Hnext : forall w1,
            failed a = true ->
            CacheLines cachePath year printProgress script w1
            = (Returned filePath, rest, w') ->
            exists bad a0 lines,
              a :: script = (bad ++ a0 :: rest)%list
              /\ forallb failed bad = true
              /\ delivers a0 lines
              /\ filePath = fill_path cachePath year a0).
  { intros w1 Hfailed Hrest.
    destruct (IH _ _ _ _ Hrest) as (bad & a0 & lines & -> & Hbad & Hgood & Hp).
    exists (a :: bad), a0, lines. cbn [app forallb]. rewrite Hfailed, Hbad.
    done. }
  unfold failed, mismatch, fetch_fails in Hnext.
  destruct (isFrak a) eqn:Efrak; cbn [negb orb andb] in *;
    [|by eapply Hnext].
  destruct (fetched a) as [err|events] eqn:Efetch; [by eapply Hnext|].
  match type of Hrun with context [await ?pp ?evs ?w0] =>
    destruct (await_received pp evs w0) as (Hrecv & _);
    destruct (await pp evs w0) as [recv w1] eqn:Eawait
  end.
  cbn [fst] in Hrecv.
  destruct recv as [lines|err|]; [| |discriminate].
  - injection Hrun as <- <- _.
    exists [], a, lines. repeat split; try done.
    exists events. done.
  - eapply Hnext; [|exact Hrun]. by rewrite <- Hrecv.
Qed.

Lemma CacheLines_returns_only_after_delivery_witness :
  exists bad a lines,
    [mismatch_attempt; progress_error_attempt; good_attempt "abc";
     good_attempt "later"]
    = (bad ++ a :: [good_attempt "later"])%list
    /\ forallb failed bad = true
    /\ delivers a lines
    /\ "/cache/1850/abc.json" = fill_path "/cache" 1850 a.
Proof.
  apply (CacheLines_returns_only_after_delivery "/cache" 1850 true
           [mismatch_attempt; progress_error_attempt; good_attempt "abc";
            good_attempt "later"]
           world_1850 "/cache/1850/abc.json" [good_attempt "later"]
           (CacheLines "/cache" 1850 true
              [mismatch_attempt; progress_error_attempt; good_attempt "abc";
               good_attempt "later"] world_1850).2).
  reflexivity.
Defined.

Lemma insert_path_sorted f l :
  Sorted (fun a b : string * MetaFile => String.leb a.1 b.1 = true) l ->
  Sorted (fun a b : string * MetaFile => String.leb a.1 b.1 = true)
         (insert_path f l).
Proof.
  induction 1 as [|g l Hsorted IH Hhd]; cbn [insert_path].
  - repeat constructor.
  - destruct (String.leb f.1 g.1) eqn:Eleb.
    + constructor; [by constructor|]. by constructor.
    + fold (insert_path f l). constructor; [exact IH|].
      destruct (String.leb_total f.1 g.1) as [Hfg|Hgf]; [congruence|].
      destruct Hhd as [|h l' Hgh]; cbn [insert_path].
      * by constructor.
      * destruct (String.leb f.1 h.1); by constructor.
Qed.

(** X19. The rows of the table of works are the works that were read, in
    the byte order of the paths of their files, whatever the order in which
    the files were found. *)
Theorem createReadme_works_in_path_order
  (metaFiles : list (string * MetaFile)) (w : World) :
  exists files,
    files ≡ₚ metaFiles
    /\ Sorted (fun a b : string * MetaFile => String.leb a.1 b.1 = true) files
    /\ worksTable (createReadme metaFiles w).1 = map work_row (parsed files).
Proof.
  exists (sort_paths metaFiles). split; [apply sort_paths_perm|]. split.
  - induction metaFiles as [|f l IH]; cbn [sort_paths fold_right];
      [constructor|].
    by apply insert_path_sorted.
  - unfold createReadme.
    destruct (readme_stats_gathered metaFiles w)
      as (_ & _ & _ & _ & _ & Hrows & _).
    destruct (readme_stats metaFiles w) as [stats w']. exact Hrows.
Qed.
